(** * Disthon: the client core ([discord/client.py])

    A shallow embedding of [Client]: the listener registry, the event
    dispatcher, the command registry and the connection supervisor, with
    the properties of its specification stated and proved (or refuted)
    against the embedded code.

    Conventions.
    - Python [str] is [string], read as ASCII text: [lower] is [str.lower]
      on the strings that [is_ascii] accepts, and the statements about
      which stored name an event type reaches are made for ASCII types.
    - [dict] objects keyed by event name are [gmap string _]; the command
      dictionary is iterated by the code, so it is an insertion-ordered
      association list with unique keys.
    - Coroutines run in an explicit state-and-error monad [M] over the
      client object and a history of observable actions.  The external
      collaborators (REST layer, gateway socket, data converter, command
      parser, event loop) are the fields of [Runtime].
    - Unbounded loops and the recursive dispatch take a fuel argument;
      [OutOfFuel] stands for a run that has not finished yet. *)

From stdpp Require Import gmap strings list fin_maps.
From Stdlib Require Import Ascii String.

Open Scope string_scope.
Open Scope list_scope.

(** ** Values of the program *)

(** A registered callback that has a [__name__] (a function, a coroutine
    function, a method): [func.__name__], the answer of
    [inspect.iscoroutinefunction(func)], and the identity of the object.
    A callable object without [__name__] is not a [Handler]. *)
Record Handler := {
  h_name : string;
  h_async : bool;
  h_id : nat
}.

Inductive ExnClass :=
| TypeError
| ValueError
| KeyError
| AttributeError
| TimeoutError
| OtherError (cls : string) (derives_Exception : bool).

(** [isinstance(error, Exception)]: what [except Exception] catches. *)
Definition is_Exception (k : ExnClass) : bool :=
  match k with
  | OtherError _ b => b
  | _ => true
  end.

(** An exception object; [exn_event] is the attribute that the dispatcher
    sets with [error.event = coro]. *)
Record Exn := {
  exn_class : ExnClass;
  exn_msg : string;
  exn_event : option Handler
}.

Definition mk_exn (k : ExnClass) (msg : string) : Exn :=
  {| exn_class := k; exn_msg := msg; exn_event := None |}.

(** [error.event = coro] *)
Definition set_event (error : Exn) (coro : Handler) : Exn :=
  {| exn_class := exn_class error; exn_msg := exn_msg error;
     exn_event := Some coro |}.

(** Payloads and converted arguments: opaque data, or an exception object
    (the payload of the [event_error] envelope). *)
Inductive Value :=
| VData (n : nat)
| VError (e : Exn).

(** The dictionary received from the gateway: [msg["t"]] and [msg["d"]]. *)
Record Envelope := {
  msg_t : string;
  msg_d : Value
}.

Module Author.
Record t := { bot : bool; username : string }.
End Author.

Module Message.
Record t := { author : Author.t; content : string }.
End Message.

(** [commands.core.Command], as far as the client reads it. *)
Module Command.
Record t := {
  name : string;
  is_regex_command : bool;
  regex_match_func : string -> string -> nat -> bool;
  regex_flags : nat;
  uid : nat
}.
End Command.

Inductive IntentsValue :=
| IsIntents (bits : N)
| NotIntents (class_name : string).

(** [isinstance(self.intents, Intents)] *)
Definition isinstance_Intents (v : IntentsValue) : bool :=
  match v with
  | IsIntents _ => true
  | NotIntents _ => false
  end.

(** A started gateway socket. *)
Record Session := { session_id : nat; session_url : string }.

Definition Kwargs := list (string * Value).

(** ** [str.lower] on ASCII *)

(** [lower] turns the letters [A]-[Z] into [a]-[z] and leaves every other
    character as it is, which is what [str.lower] does on an ASCII string
    ([str.isascii], here [is_ascii]).  Cased letters outside ASCII are not
    modelled. *)

Definition lower_ascii (c : ascii) : ascii :=
  let n := nat_of_ascii c in
  if Nat.leb 65 n && Nat.leb n 90 then ascii_of_nat (n + 32) else c.

Fixpoint lower (s : string) : string :=
  match s with
  | EmptyString => EmptyString
  | String c r => String (lower_ascii c) (lower r)
  end.

(** [str.isascii]: every character is below 128. *)
Definition is_ascii_char (c : ascii) : bool := Nat.ltb (nat_of_ascii c) 128.

Fixpoint is_ascii (s : string) : bool :=
  match s with
  | EmptyString => true
  | String c r => is_ascii_char c && is_ascii r
  end.

(** ** The client object *)

Record Client := {
  intents : IntentsValue;
  respond_self : bool;
  closed : bool;
  events : gmap string (list Handler);
  once_events : gmap string (list Handler);
  command_prefix : string;
  commands : list (string * Command.t);
  token : option string;
  info : option nat;
  ws : option Session
}.

Definition set_closed (b : bool) (c : Client) : Client :=
  {| intents := intents c; respond_self := respond_self c; closed := b;
     events := events c; once_events := once_events c;
     command_prefix := command_prefix c; commands := commands c;
     token := token c; info := info c; ws := ws c |}.

Definition set_events (m : gmap string (list Handler)) (c : Client) : Client :=
  {| intents := intents c; respond_self := respond_self c; closed := closed c;
     events := m; once_events := once_events c;
     command_prefix := command_prefix c; commands := commands c;
     token := token c; info := info c; ws := ws c |}.

Definition set_once_events (m : gmap string (list Handler)) (c : Client) : Client :=
  {| intents := intents c; respond_self := respond_self c; closed := closed c;
     events := events c; once_events := m;
     command_prefix := command_prefix c; commands := commands c;
     token := token c; info := info c; ws := ws c |}.

Definition set_commands (l : list (string * Command.t)) (c : Client) : Client :=
  {| intents := intents c; respond_self := respond_self c; closed := closed c;
     events := events c; once_events := once_events c;
     command_prefix := command_prefix c; commands := l;
     token := token c; info := info c; ws := ws c |}.

Definition set_token (t : string) (c : Client) : Client :=
  {| intents := intents c; respond_self := respond_self c; closed := closed c;
     events := events c; once_events := once_events c;
     command_prefix := command_prefix c; commands := commands c;
     token := Some t; info := info c; ws := ws c |}.

Definition set_info (i : nat) (c : Client) : Client :=
  {| intents := intents c; respond_self := respond_self c; closed := closed c;
     events := events c; once_events := once_events c;
     command_prefix := command_prefix c; commands := commands c;
     token := token c; info := Some i; ws := ws c |}.

Definition set_ws (s : Session) (c : Client) : Client :=
  {| intents := intents c; respond_self := respond_self c; closed := closed c;
     events := events c; once_events := once_events c;
     command_prefix := command_prefix c; commands := commands c;
     token := token c; info := info c; ws := Some s |}.

(** ** Observable actions *)

Inductive Action :=
| ADispatch (event : string) (payload : Value)
    (* [handle_event] entered, after the name was lower-cased *)
| ATask (once : bool) (event : string) (coro : Handler) (args : list Value)
    (* [self._loop.create_task(coro( *args))] returned a task; [once] tells
       which of the two loops of [handle_event] created it *)
| ADrain (event : string) (drained : list Handler)
    (* [self.once_events.pop(event, [])] *)
| ALogin (tok : string)
| ANewSocket (tok : string)
| AAcquire
| ARelease
| AGateway
| AStart (url : string)
| AReceive (s : Session)
| AWsClose (s : Session)
| AHttpClose
| AParse (m : Message.t)
| AExecute (c : Command.t) (m : Message.t) (args : list Value) (kw : Kwargs).

(** ** The monad of coroutines *)

Inductive Outcome (A : Type) :=
| Done (a : A)
| Raised (e : Exn)
| OutOfFuel.
Arguments Done {A} a.
Arguments Raised {A} e.
Arguments OutOfFuel {A}.

Record Machine := {
  client : Client;
  history : list Action
}.

Definition M (A : Type) : Type := Machine -> Outcome A * Machine.

Definition ret {A} (a : A) : M A := fun m => (Done a, m).
Definition raise {A} (e : Exn) : M A := fun m => (Raised e, m).
Definition diverge {A} : M A := fun m => (OutOfFuel, m).

Definition bind {A B} (x : M A) (k : A -> M B) : M B :=
  fun m =>
    match x m with
    | (Done a, m') => k a m'
    | (Raised e, m') => (Raised e, m')
    | (OutOfFuel, m') => (OutOfFuel, m')
    end.

Declare Scope coro_scope.
Delimit Scope coro_scope with coro.
Notation "'let*' x ':=' c1 'in' c2" := (bind c1 (fun x => c2))
  (at level 10, x pattern, c1 at level 100, c2 at level 200) : coro_scope.
Notation "c1 ;; c2" := (bind c1 (fun _ => c2))
  (at level 100, c2 at level 200, right associativity) : coro_scope.
Open Scope coro_scope.

Definition gets {A} (f : Client -> A) : M A :=
  fun m => (Done (f (client m)), m).

Definition modify (f : Client -> Client) : M unit :=
  fun m => (Done tt, {| client := f (client m); history := history m |}).

Definition emit (a : Action) : M unit :=
  fun m => (Done tt, {| client := client m; history := history m ++ [a] |}).

(** A synchronous call into a collaborator that returns or raises. *)
Definition lift {A} (r : Exn + A) : M A :=
  match r with
  | inl e => raise e
  | inr a => ret a
  end.

(** [try: body finally: cleanup] *)
Definition finally {A} (body : M A) (cleanup : M unit) : M A :=
  fun m =>
    match body m with
    | (OutOfFuel, m') => (OutOfFuel, m')
    | (r, m') =>
        match cleanup m' with
        | (Done _, m'') => (r, m'')
        | (Raised e, m'') => (Raised e, m'')
        | (OutOfFuel, m'') => (OutOfFuel, m'')
        end
    end.

(** [for x in l: body(x)] *)
Fixpoint for_each {A} (l : list A) (body : A -> M unit) : M unit :=
  match l with
  | [] => ret tt
  | x :: rest => body x ;; for_each rest body
  end.

(** ** External collaborators *)

(** What an [await] on a collaborator gives back when the coroutine is
    resumed: the answer, and whether some other task called [close()] on
    the client while this coroutine was suspended (which sets
    [self.closed]). *)
Record Reply (A : Type) := {
  close_called : bool;
  answer : A
}.
Arguments close_called {A} r.
Arguments answer {A} r.

(** The awaitable handed to [asyncio.wait_for]: finished in time (with a
    value or an exception), or still pending when the timeout expires. *)
Inductive Awaited (A : Type) :=
| Finished (r : Exn + A)
| Pending.
Arguments Finished {A} r.
Arguments Pending {A}.

Definition ParseResult : Type :=
  option Command.t * list Value * Kwargs * Kwargs.

(** The collaborators of the client.  Those that are awaited answer as a
    function of the history so far. *)
Record Runtime := {
  (* [self.converter.convert(event, payload)] *)
  convert : string -> Value -> Exn + list Value;
  (* [self._loop.create_task(coro( *args))]: [None] when the task is
     created, [Some error] when building or scheduling it raises *)
  create_task : Handler -> list Value -> option Exn;
  (* [self.command_parser.parse_message(message)]; the parser holds the
     prefix and a reference to [self.commands] *)
  parse_message : Client -> Message.t -> Exn + ParseResult;
  (* [await command.execute(context, *args, **kwargs)] *)
  execute : Command.t -> Message.t -> list Value -> Kwargs ->
            list Action -> Reply (Exn + unit);
  (* [await self.httphandler.login(token)] *)
  http_login : string -> list Action -> Reply (Exn + nat);
  (* [await self.httphandler.gateway()] *)
  http_gateway : list Action -> Reply (Exn + string);
  (* [socket.start(g_url)] for the socket built from the token *)
  socket_start : string -> string -> list Action -> Reply (Awaited Session);
  (* [await self.ws.receive_events()] *)
  receive_events : Session -> list Action -> Reply (Exn + unit);
  (* [await self.ws.close()] *)
  ws_close : Session -> list Action -> Reply (Exn + unit);
  (* [await self.httphandler.close()] *)
  http_close : list Action -> Reply (Exn + unit)
}.

(** [asyncio.wait_for(aw, timeout=30)] *)
Definition wait_for {A} (aw : Awaited A) : Exn + A :=
  match aw with
  | Finished r => r
  | Pending => inl (mk_exn TimeoutError "")
  end.

(** [await]: the call is recorded, the coroutine is suspended and resumed
    with the collaborator's reply. *)
Definition await_reply {A} (act : Action) (reply : list Action -> Reply A) : M A :=
  fun m =>
    let r := reply (history m) in
    (Done (answer r),
     {| client := if close_called r then set_closed true (client m) else client m;
        history := history m ++ [act] |}).

Definition await {A} (act : Action) (reply : list Action -> Reply (Exn + A)) : M A :=
  let* r := await_reply act reply in lift r.

(** [async with self.lock: body] *)
Definition with_lock {A} (body : M A) : M A :=
  emit AAcquire ;; finally body (emit ARelease).

(** Reading [self.token] and [self.ws], which [__init__] does not set. *)
Definition get_token : M string :=
  let* t := gets token in
  match t with
  | Some tok => ret tok
  | None => raise (mk_exn AttributeError "'Client' object has no attribute 'token'")
  end.

Definition no_ws_error : Exn :=
  mk_exn AttributeError "'Client' object has no attribute 'ws'".

Definition get_ws : M Session :=
  let* w := gets ws in
  match w with
  | Some s => ret s
  | None => raise no_ws_error
  end.

(** ** Listener registry: [Client.add_listener] *)

(** [event or func.__name__] *)
Definition listener_key (func : Handler) (event : option string) : string :=
  match event with
  | Some e => if String.eqb e "" then h_name func else e
  | None => h_name func
  end.

(** The update of one of the two tables: append in place when the key is
    present and [overwrite] is false, else bind the key to [[func]]. *)
Definition register (tbl : gmap string (list Handler)) (event : string)
    (func : Handler) (overwrite : bool) : gmap string (list Handler) :=
  match tbl !! event with
  | Some l => if negb overwrite then <[event := l ++ [func]]> tbl
              else <[event := [func]]> tbl
  | None => <[event := [func]]> tbl
  end.

Definition add_listener (func : Handler) (event : option string)
    (overwrite once : bool) : M unit :=
  let event := listener_key func event in
  if negb (h_async func) then
    raise (mk_exn TypeError
      "The callback is not a valid coroutine function. Did you forget to add async before def?")
  else if once then
    let* tbl := gets once_events in
    modify (set_once_events (register tbl event func overwrite))
  else
    let* tbl := gets events in
    modify (set_events (register tbl event func overwrite)).

(** ** Event dispatcher: [Client.handle_event] *)

(** [self.once_events.pop(event, [])] *)
Definition pop_once (event : string) : M (list Handler) :=
  let* tbl := gets once_events in
  modify (set_once_events (delete event tbl)) ;;
  emit (ADrain event (default [] (tbl !! event))) ;;
  ret (default [] (tbl !! event)).

(** The body of both loops:
    [try: create_task(coro( *args))
     except Exception as error: error.event = coro; await self.handle_event(...)] *)
Definition schedule (rt : Runtime) (self_handle_event : Envelope -> M unit)
    (once : bool) (event : string) (args : list Value) (coro : Handler) : M unit :=
  match create_task rt coro args with
  | None => emit (ATask once event coro args)
  | Some error =>
      if is_Exception (exn_class error) then
        self_handle_event
          {| msg_t := "event_error"; msg_d := VError (set_event error coro) |}
      else raise error
  end.

(** [handle_event] calls itself for [event_error]; [fuel] bounds the depth
    of these calls.  The recursion limit of the interpreter is not
    modelled: a dispatch that never stops recursing is [OutOfFuel] for
    every amount of fuel. *)
Fixpoint handle_event (rt : Runtime) (fuel : nat) (msg : Envelope) : M unit :=
  match fuel with
  | 0 => diverge
  | S fuel' =>
      let event := lower (msg_t msg) in
      emit (ADispatch event (msg_d msg)) ;;
      let* args := lift (convert rt event (msg_d msg)) in
      let* persistent := gets (fun c => default [] (events c !! event)) in
      for_each persistent (schedule rt (handle_event rt fuel') false event args) ;;
      let* drained := pop_once event in
      for_each drained (schedule rt (handle_event rt fuel') true event args)
  end.

(** ** Command registry *)

(** [name in self.commands] *)
Definition has_command (name : string) (items : list (string * Command.t)) : bool :=
  existsb (fun kc => String.eqb (fst kc) name) items.

(** [self.commands[name]] as an optional value *)
Fixpoint lookup_command (name : string) (items : list (string * Command.t))
    : option Command.t :=
  match items with
  | [] => None
  | (k, c) :: rest => if String.eqb k name then Some c else lookup_command name rest
  end.

Definition remove_key (name : string) (items : list (string * Command.t))
    : list (string * Command.t) :=
  filter (fun kc => negb (String.eqb (fst kc) name)) items.

Definition add_command (command : Command.t) : M Command.t :=
  let* cmds := gets commands in
  if has_command (Command.name command) cmds then
    raise (mk_exn ValueError "Duplicate command name")
  else
    modify (set_commands (cmds ++ [(Command.name command, command)])) ;;
    ret command.

(** [self.commands.pop(command.name)] *)
Definition remove_command (command : Command.t) : M Command.t :=
  let* cmds := gets commands in
  match lookup_command (Command.name command) cmds with
  | Some c =>
      modify (set_commands (remove_key (Command.name command) cmds)) ;;
      ret c
  | None => raise (mk_exn KeyError (Command.name command))
  end.

(** The loop of [get_command_named] over [self.commands.items()]; falling
    off the end returns [None]. *)
Fixpoint find_command (items : list (string * Command.t)) (name : string)
    : option Command.t :=
  match items with
  | [] => None
  | (command_name, command) :: rest =>
      if Command.is_regex_command command then
        if Command.regex_match_func command command_name name
             (Command.regex_flags command)
        then Some command
        else find_command rest name
      else if String.eqb command_name name then Some command
      else find_command rest name
  end.

Definition get_command_named (c : Client) (name : string) : option Command.t :=
  find_command (commands c) name.

(** ** Command pipeline: [Client.process_commands] *)

(** The call [f( **kwargs, **extra_kwargs)] raises [TypeError] when a key
    occurs in both dictionaries. *)
Definition merge_kwargs (kwargs extra_kwargs : Kwargs) : Exn + Kwargs :=
  match find (fun kv => existsb (fun kv' => String.eqb (fst kv) (fst kv')) kwargs)
             extra_kwargs with
  | Some kv =>
      inl (mk_exn TypeError
             ("got multiple values for keyword argument '" ++ fst kv ++ "'")%string)
  | None => inr (kwargs ++ extra_kwargs)
  end.

Definition process_commands (rt : Runtime) (message : Message.t) : M unit :=
  if Author.bot (Message.author message) then ret tt
  else
    let* self := gets id in
    emit (AParse message) ;;
    let* (command, args, kwargs, extra_kwargs) :=
      lift (parse_message rt self message) in
    match command with
    | Some cmd =>
        let* kw := lift (merge_kwargs kwargs extra_kwargs) in
        await (AExecute cmd message args kw) (execute rt cmd message args kw)
    | None => ret tt
    end.

(** [Client.handle_commands], the default [message_create] listener *)
Definition handle_commands (rt : Runtime) (message : Message.t) : M unit :=
  process_commands rt message.

(** ** Connection supervisor *)

Definition login (rt : Runtime) (tok : string) : M unit :=
  modify (set_token tok) ;;
  with_lock (
    let* i := await (ALogin tok) (http_login rt tok) in
    modify (set_info i)).

(** The inner loop of [connect]:
    [while not self.closed: await self.ws.receive_events()] *)
Fixpoint receive_loop (rt : Runtime) (fuel : nat) : M unit :=
  match fuel with
  | 0 => diverge
  | S fuel' =>
      let* c := gets closed in
      if c then ret tt
      else
        let* w := get_ws in
        await (AReceive w) (receive_events rt w) ;;
        receive_loop rt fuel'
  end.

Definition intents_error (v : IntentsValue) : Exn :=
  mk_exn TypeError
    ("Intents must be of type Intents, got " ++
     match v with
     | IsIntents _ => "<class 'Intents'>"
     | NotIntents cls => "<class '" ++ cls ++ "'>"
     end)%string.

Fixpoint connect (rt : Runtime) (fuel : nat) : M unit :=
  match fuel with
  | 0 => diverge
  | S fuel' =>
      let* c := gets closed in
      if c then ret tt
      else
        let* tok := get_token in
        emit (ANewSocket tok) ;;
        with_lock (
          let* g_url := await AGateway (http_gateway rt) in
          let* i := gets intents in
          if negb (isinstance_Intents i) then raise (intents_error i)
          else
            let* started := await_reply (AStart g_url) (socket_start rt tok g_url) in
            let* w := lift (wait_for started) in
            modify (set_ws w)) ;;
        receive_loop rt fuel' ;;
        connect rt fuel'
  end.

Definition close (rt : Runtime) : M unit :=
  modify (set_closed true) ;;
  let* w := get_ws in
  await (AWsClose w) (ws_close rt w) ;;
  await AHttpClose (http_close rt).

Definition alive_loop (rt : Runtime) (fuel : nat) (tok : string) : M unit :=
  login rt tok ;;
  finally (connect rt fuel) (close rt).

(** ** [Client.__init__] *)

Definition handle_commands_listener : Handler :=
  {| h_name := "handle_commands"; h_async := true; h_id := 0 |}.

Definition handle_event_error_listener : Handler :=
  {| h_name := "handle_event_error"; h_async := true; h_id := 1 |}.

Definition init (prefix : string) (i : IntentsValue)
    (help_command : option Command.t) (resp : bool) : Client :=
  {| intents := i; respond_self := resp; closed := false;
     events := {[ "message_create" := [handle_commands_listener];
                  "event_error" := [handle_event_error_listener] ]};
     once_events := ∅;
     command_prefix := prefix;
     commands := match help_command with
                 | Some h => [(Command.name h, h)]
                 | None => []
                 end;
     token := None; info := None; ws := None |}.

Definition boot (c : Client) : Machine := {| client := c; history := [] |}.

(** ** Derived notions used in the statements *)

(** The listeners stored under a name, by kind ([lookup] of the
    specification for [once = false]). *)
Definition listeners (once : bool) (c : Client) (event : string) : list Handler :=
  default [] ((if once then once_events c else events c) !! event).

(** A series of [add_listener] calls without [overwrite]. *)
Definition add_listeners (calls : list (Handler * option string)) (once : bool) : M unit :=
  for_each calls (fun fe => add_listener (fst fe) (snd fe) false once).

(** The tasks created for a list of handlers, in order. *)
Definition tasks (once : bool) (event : string) (args : list Value)
    (hs : list Handler) : list Action :=
  map (fun h => ATask once event h args) hs.

(** The history of a dispatch in which no handler raises. *)
Definition quiet_dispatch (c : Client) (event : string) (payload : Value)
    (args : list Value) : list Action :=
  [ADispatch event payload] ++ tasks false event args (listeners false c event) ++
  [ADrain event (listeners true c event)] ++
  tasks true event args (listeners true c event).

(** The history of a dispatch of [x] in which one handler, standing between
    [pre] and [post] in the list of its kind, raises while it is scheduled
    and [report] is the history of the nested [event_error] dispatch. *)
Definition isolated_dispatch (c : Client) (once : bool) (x : string)
    (payload : Value) (args : list Value) (pre post : list Handler)
    (report : list Action) : list Action :=
  if once then
    [ADispatch x payload] ++ tasks false x args (listeners false c x) ++
    [ADrain x (listeners true c x)] ++
    tasks true x args pre ++ report ++ tasks true x args post
  else
    [ADispatch x payload] ++
    tasks false x args pre ++ report ++ tasks false x args post ++
    [ADrain x (listeners true c x)] ++ tasks true x args (listeners true c x).

(** The handlers delivered by the one-shot loop for [event], in order. *)
Definition one_shot_tasks (event : string) (log : list Action) : list Handler :=
  omap (fun a => match a with
                 | ATask true e h _ => if String.eqb e event then Some h else None
                 | _ => None
                 end) log.

Definition is_error_dispatch (a : Action) : bool :=
  match a with
  | ADispatch e _ => String.eqb e "event_error"
  | _ => false
  end.

Definition is_new_socket (a : Action) : bool :=
  match a with
  | ANewSocket _ => true
  | _ => false
  end.

(** The rule by which [get_command_named] accepts an entry. *)
Definition accepts (name : string) (kc : string * Command.t) : bool :=
  if Command.is_regex_command (snd kc) then
    Command.regex_match_func (snd kc) (fst kc) name (Command.regex_flags (snd kc))
  else String.eqb (fst kc) name.

(** The resolution the specification describes: exact key first, pattern
    commands only on a miss. *)
Definition spec_resolve (c : Client) (name : string) : option Command.t :=
  match lookup_command name (commands c) with
  | Some cmd => Some cmd
  | None =>
      snd <$> find (fun kc => Command.is_regex_command (snd kc) && accepts name kc)
                   (commands c)
  end.

(** Dispatching a series of envelopes one after the other, whatever the
    outcome of each. *)
Fixpoint dispatch_all (rt : Runtime) (runs : list (nat * Envelope)) (m : Machine)
    : Machine :=
  match runs with
  | [] => m
  | (fuel, msg) :: rest => dispatch_all rt rest (snd (handle_event rt fuel msg m))
  end.

(** What the first iteration of [connect] is told by the REST layer and by
    the gateway socket, for a client whose history is that of [m]. *)
Definition gateway_answer (rt : Runtime) (m : Machine) (tok : string) : Exn + string :=
  answer (http_gateway rt ((history m ++ [ANewSocket tok]) ++ [AAcquire])).

Definition start_answer (rt : Runtime) (m : Machine) (tok url : string)
    : Exn + Session :=
  wait_for (answer (socket_start rt tok url
                      (((history m ++ [ANewSocket tok]) ++ [AAcquire]) ++ [AGateway]))).

(** [runs x m a new c']: from [m], the coroutine [x] returns [a], leaves the
    client [c'] and adds [new] to the history. *)
Definition runs {A} (x : M A) (m : Machine) (a : A) (new : list Action)
    (c' : Client) : Prop :=
  x m = (Done a, {| client := c'; history := history m ++ new |}).

(** What a part of a dispatch that goes from [m] to [m'] and adds [new] to
    the history may do to the one-shot table: for every name, the handlers
    delivered by the one-shot loop followed by those still stored form a
    subsequence of those stored before; a key that is absent stays absent;
    a drained key is absent afterwards. *)
Record Step (m m' : Machine) (new : list Action) : Prop := {
  step_history : history m' = history m ++ new;
  step_budget : forall e,
    one_shot_tasks e new ++ listeners true (client m') e
      `sublist_of` listeners true (client m) e;
  step_gone : forall e,
    once_events (client m) !! e = None -> once_events (client m') !! e = None;
  step_drained : forall e l,
    In (ADrain e l) new -> once_events (client m') !! e = None
}.

(** A coroutine all of whose runs, finished or not, are steps. *)
Definition Safe {A} (x : M A) : Prop :=
  forall m, exists new, Step m (snd (x m)) new.

(** The second half of [handle_event]: the drain and the one-shot
    loop. *)
Definition one_shot_phase (rt : Runtime) (k : Envelope -> M unit) (x : string)
    (args : list Value) : M unit :=
  let* drained := pop_once x in
  for_each drained (schedule rt k true x args).

(** ** Concrete runtimes and clients *)

Definition ok_reply {A} (a : A) : list Action -> Reply (Exn + A) :=
  fun _ => {| close_called := false; answer := inr a |}.

Definition fail_reply {A} (e : Exn) : list Action -> Reply (Exn + A) :=
  fun _ => {| close_called := false; answer := inl e |}.

Definition make_rt
    (task : Handler -> list Value -> option Exn)
    (login_reply : list Action -> Reply (Exn + nat))
    (start_reply : string -> Awaited Session) : Runtime :=
  {| convert := fun _ v => inr [v];
     create_task := task;
     parse_message := fun _ _ => inr (None, [], [], []);
     execute := fun _ _ _ _ => ok_reply tt;
     http_login := fun _ => login_reply;
     http_gateway := ok_reply "wss://gateway";
     socket_start := fun _ url _ =>
       {| close_called := false; answer := start_reply url |};
     receive_events := fun _ _ => {| close_called := true; answer := inr tt |};
     ws_close := fun _ => ok_reply tt;
     http_close := ok_reply tt |}.

Definition started (url : string) : Awaited Session :=
  Finished (inr {| session_id := 0; session_url := url |}).

(** Every collaborator succeeds; the first [receive_events] ends with the
    client closed by a handler. *)
Definition rt_ok : Runtime := make_rt (fun _ _ => None) (ok_reply 7) started.

(** The gateway socket does not start within the timeout. *)
Definition rt_timeout : Runtime :=
  make_rt (fun _ _ => None) (ok_reply 7) (fun _ => Pending).

(** The REST layer rejects the token. *)
Definition auth_error : Exn := mk_exn (OtherError "LoginFailure" true) "401".
Definition rt_auth : Runtime :=
  make_rt (fun _ _ => None) (fail_reply auth_error) started.

(** Handlers with an even identity take no argument: calling them with one
    raises [TypeError]. *)
Definition arity_error : Exn := mk_exn TypeError "takes 0 positional arguments".
Definition rt_arity : Runtime :=
  make_rt (fun h _ => if Nat.even (h_id h) then Some arity_error else None)
          (ok_reply 7) started.

(** Scheduling a handler with an even identity raises an error that is not
    an [Exception] (as [asyncio.CancelledError] is not). *)
Definition cancelled : Exn := mk_exn (OtherError "CancelledError" false) "".
Definition rt_cancel : Runtime :=
  make_rt (fun h _ => if Nat.even (h_id h) then Some cancelled else None)
          (ok_reply 7) started.

Definition client0 : Client := init "!" (IsIntents 513) None false.
Definition client_bad_intents : Client := init "!" (NotIntents "int") None false.

Definition on_ready : Handler := {| h_name := "on_ready"; h_async := true; h_id := 11 |}.
Definition on_ready2 : Handler := {| h_name := "on_ready"; h_async := true; h_id := 13 |}.
Definition READY : Handler := {| h_name := "READY"; h_async := true; h_id := 15 |}.
Definition broken : Handler := {| h_name := "broken"; h_async := true; h_id := 20 |}.
Definition broken_reporter : Handler :=
  {| h_name := "event_error"; h_async := true; h_id := 22 |}.

Definition ready_msg : Envelope := {| msg_t := "READY"; msg_d := VData 1 |}.

(** A pattern command accepting every name that starts with its key, as
    [re.match] does for a literal pattern. *)
Definition cmd_pattern : Command.t :=
  {| Command.name := "ec"; Command.is_regex_command := true;
     Command.regex_match_func := fun pat n _ => String.prefix pat n;
     Command.regex_flags := 0; Command.uid := 1 |}.

Definition cmd_echo : Command.t :=
  {| Command.name := "echo"; Command.is_regex_command := false;
     Command.regex_match_func := fun _ _ _ => false;
     Command.regex_flags := 0; Command.uid := 2 |}.

Definition cmd_echo2 : Command.t :=
  {| Command.name := "echo"; Command.is_regex_command := false;
     Command.regex_match_func := fun _ _ _ => false;
     Command.regex_flags := 0; Command.uid := 3 |}.

Definition bot_message : Message.t :=
  {| Message.author := {| Author.bot := true; Author.username := "relay" |};
     Message.content := "!echo hi" |}.

Definition human_message : Message.t :=
  {| Message.author := {| Author.bot := false; Author.username := "ada" |};
     Message.content := "!echo hi" |}.

(** A parser and executor for which the text of [bot_message] is a valid
    command. *)
Definition rt_echo : Runtime :=
  {| convert := fun _ v => inr [v];
     create_task := fun _ _ => None;
     parse_message := fun _ _ => inr (Some cmd_echo, [VData 0], [], []);
     execute := fun _ _ _ _ => ok_reply tt;
     http_login := fun _ => ok_reply 7;
     http_gateway := ok_reply "wss://gateway";
     socket_start := fun _ url _ => {| close_called := false; answer := started url |};
     receive_events := fun _ _ => {| close_called := true; answer := inr tt |};
     ws_close := fun _ => ok_reply tt;
     http_close := ok_reply tt |}.

(** A registry in which a pattern command was registered before the plain
    command [echo], and one with the opposite order. *)
Definition client_shadowed : Client :=
  client (snd ((add_command cmd_pattern ;; add_command cmd_echo) (boot client0))).

Definition client_plain_first : Client :=
  client (snd ((add_command cmd_echo ;; add_command cmd_pattern) (boot client0))).

Definition logged_in (c : Client) : Machine := boot (set_token "token" c).

(** A listener registered under its own, upper-case, function name. *)
Definition client_upper : Machine :=
  snd (add_listener READY None false false (boot client0)).

(** Listeners of an event [x]: [broken] cannot be scheduled, [on_ready]
    follows it, [on_ready2] is one-shot. *)
Definition x_msg : Envelope := {| msg_t := "X"; msg_d := VData 1 |}.

Definition client_x : Machine :=
  snd ((add_listener broken (Some "x") false false ;;
        add_listener on_ready (Some "x") false false ;;
        add_listener on_ready2 (Some "x") false true) (boot client0)).

(** One-shot listeners of an event [y], the first of which cannot be
    scheduled. *)
Definition y_msg : Envelope := {| msg_t := "Y"; msg_d := VData 2 |}.

Definition client_y : Machine :=
  snd ((add_listener broken (Some "y") false true ;;
        add_listener on_ready (Some "y") false true) (boot client0)).

(** The same, after the [event_error] listener was replaced by one that
    cannot be scheduled either. *)
Definition client_x_broken_reporter : Machine :=
  snd (add_listener broken_reporter None true false client_x).

(** ** The decorators [Client.on] and [Client.once] *)

Module Decorator.
Definition on (event : option string) (overwrite : bool) (func : Handler)
    : M Handler :=
  add_listener func event overwrite false ;; ret func.

Definition once (event : option string) (overwrite : bool) (func : Handler)
    : M Handler :=
  add_listener func event overwrite true ;; ret func.
End Decorator.

(** ** Well-formed command registries *)

(** What a [dict] filled by [add_command] is: no key twice, and every
    command stored under its own name. *)
Definition registry_ok (items : list (string * Command.t)) : Prop :=
  NoDup (map fst items) /\
  Forall (fun kc => fst kc = Command.name (snd kc)) items.

Definition plain_only (items : list (string * Command.t)) : Prop :=
  Forall (fun kc => Command.is_regex_command (snd kc) = false) items.

Definition cmd_ping : Command.t :=
  {| Command.name := "ping"; Command.is_regex_command := false;
     Command.regex_match_func := fun _ _ _ => false;
     Command.regex_flags := 0; Command.uid := 4 |}.

Definition not_async : Handler :=
  {| h_name := "blocking"; h_async := false; h_id := 30 |}.

(** ** Reading a dispatch off the history *)

(** The tasks created for the listeners of [x], with the loop that created
    them, in order. *)
Definition x_tasks (x : string) (log : list Action) : list (bool * Handler) :=
  omap (fun a => match a with
                 | ATask o e h _ => if String.eqb e x then Some (o, h) else None
                 | _ => None
                 end) log.

(** The payloads of the [event_error] envelopes dispatched, in order. *)
Definition reports (log : list Action) : list Value :=
  omap (fun a => match a with
                 | ADispatch e p => if String.eqb e "event_error" then Some p else None
                 | _ => None
                 end) log.

(** What one turn of a loop of [handle_event] does with a listener: a task,
    or a report carrying the error with [event] set to the listener. *)
Definition scheduled_of (rt : Runtime) (args : list Value) (once : bool)
    (h : Handler) : option (bool * Handler) :=
  match create_task rt h args with
  | None => Some (once, h)
  | Some _ => None
  end.

Definition report_of (rt : Runtime) (args : list Value) (h : Handler)
    : option Value :=
  match create_task rt h args with
  | None => None
  | Some err => Some (VError (set_event err h))
  end.

(** The client after an [event_error] dispatch that nothing disturbed. *)
Definition after_report (c : Client) : Client :=
  set_once_events (delete "event_error" (once_events c)) c.

(** The listeners of [event_error] of a client can all be scheduled, with
    any arguments. *)
Definition healthy_reporters (rt : Runtime) (c : Client) : Prop :=
  forall g eargs,
    In g (listeners false c "event_error" ++ listeners true c "event_error") ->
    create_task rt g eargs = None.

(** A payload that the converter rejects. *)
Definition conversion_error : Exn := mk_exn (OtherError "ValidationError" true) "d".
Definition rt_strict : Runtime :=
  {| convert := fun _ v => match v with
                           | VData 0 => inl conversion_error
                           | _ => inr [v]
                           end;
     create_task := fun _ _ => None;
     parse_message := fun _ _ => inr (None, [], [], []);
     execute := fun _ _ _ _ => ok_reply tt;
     http_login := fun _ => ok_reply 7;
     http_gateway := ok_reply "wss://gateway";
     socket_start := fun _ url _ => {| close_called := false; answer := started url |};
     receive_events := fun _ _ => {| close_called := true; answer := inr tt |};
     ws_close := fun _ => ok_reply tt;
     http_close := ok_reply tt |}.

(** [only_drains c c']: [c'] is [c] with some one-shot entries removed. *)
Definition only_drains (c c' : Client) : Prop :=
  exists tbl, tbl ⊆ once_events c /\ c' = set_once_events tbl c.

Definition Draining {A} (x : M A) : Prop :=
  forall m, only_drains (client m) (client (snd (x m))).

(** A parser that finds [cmd_echo] with keyword arguments, and a command
    body that raises. *)
Definition body_error : Exn := mk_exn (OtherError "CommandError" true) "boom".
Definition rt_body_raises : Runtime :=
  {| convert := fun _ v => inr [v];
     create_task := fun _ _ => None;
     parse_message := fun _ _ =>
       inr (Some cmd_echo, [VData 0], [("times", VData 2)], [("loud", VData 1)]);
     execute := fun _ _ _ _ => fail_reply body_error;
     http_login := fun _ => ok_reply 7;
     http_gateway := ok_reply "wss://gateway";
     socket_start := fun _ url _ => {| close_called := false; answer := started url |};
     receive_events := fun _ _ => {| close_called := true; answer := inr tt |};
     ws_close := fun _ => ok_reply tt;
     http_close := ok_reply tt |}.

(** ** Histories of the supervisor *)

(** [Traces P x]: every run of [x], finished or not, extends the history by
    actions that satisfy [P]. *)
Definition Traces (P : list Action -> Prop) {A} (x : M A) : Prop :=
  forall m, exists new, history (snd (x m)) = history m ++ new /\ P new.

Definition no_new_socket (new : list Action) : Prop :=
  filter is_new_socket new = [].

(** The block of [connect] that runs under the lock. *)
Definition open_session (rt : Runtime) (tok : string) : M unit :=
  with_lock (
    let* g_url := await AGateway (http_gateway rt) in
    let* i := gets intents in
    if negb (isinstance_Intents i) then raise (intents_error i)
    else
      let* started := await_reply (AStart g_url) (socket_start rt tok g_url) in
      let* w := lift (wait_for started) in
      modify (set_ws w)).

(** The gateway session ends with an error on the first receive. *)
Definition session_lost : Exn := mk_exn (OtherError "ConnectionClosed" true) "1006".
Definition rt_session_lost : Runtime :=
  {| convert := fun _ v => inr [v];
     create_task := fun _ _ => None;
     parse_message := fun _ _ => inr (None, [], [], []);
     execute := fun _ _ _ _ => ok_reply tt;
     http_login := fun _ => ok_reply 7;
     http_gateway := ok_reply "wss://gateway";
     socket_start := fun _ url _ => {| close_called := false; answer := started url |};
     receive_events := fun _ => fail_reply session_lost;
     ws_close := fun _ => ok_reply tt;
     http_close := ok_reply tt |}.

(** Closing the socket fails. *)
Definition close_error : Exn := mk_exn (OtherError "ConnectionResetError" true) "".
Definition rt_close_fails : Runtime :=
  {| convert := fun _ v => inr [v];
     create_task := fun _ _ => None;
     parse_message := fun _ _ => inr (None, [], [], []);
     execute := fun _ _ _ _ => ok_reply tt;
     http_login := fun _ => ok_reply 7;
     http_gateway := ok_reply "wss://gateway";
     socket_start := fun _ url _ => {| close_called := false; answer := started url |};
     receive_events := fun _ _ => {| close_called := true; answer := inr tt |};
     ws_close := fun _ => fail_reply close_error;
     http_close := ok_reply tt |}.

Definition gateway_session : Session :=
  {| session_id := 0; session_url := "wss://gateway" |}.

(** ** [discord/abc/discordobject.py] *)

Module Snowflake.
Record t := { id : Z }.
End Snowflake.

Module DiscordObject.
Record t := { id : Snowflake.t; created_at : Z }.

(** [__hash__]: [self.id.id >> 22], on unbounded integers. *)
Definition __hash__ (self : t) : Z := Z.shiftr (Snowflake.id (id self)) 22.

(** [__ne__]: [not self.__eq__(other)], for the [__eq__] of the model
    class. *)
Definition __ne__ (eq : t -> t -> bool) (self other : t) : bool :=
  negb (eq self other).
End DiscordObject.

Definition message_object : DiscordObject.t :=
  {| DiscordObject.id := {| Snowflake.id := 175928847299117063 |};
     DiscordObject.created_at := 1462015105796 |}.

(** * Properties *)

(** ** Listener registry *)

Section Registry.

Implicit Types (tbl : gmap string (list Handler)) (m : Machine).

Lemma register_append tbl n func :
  default [] (register tbl n func false !! n) = default [] (tbl !! n) ++ [func].
Proof.
  unfold register. destruct (tbl !! n) as [l|] eqn:E; cbn [negb].
  - rewrite lookup_insert_eq. reflexivity.
  - rewrite lookup_insert_eq. reflexivity.
Qed.

Lemma register_overwrite tbl n func :
  default [] (register tbl n func true !! n) = [func].
Proof.
  unfold register. destruct (tbl !! n); cbn [negb];
    rewrite lookup_insert_eq; reflexivity.
Qed.

Lemma register_other tbl n n' func ow :
  n <> n' -> register tbl n func ow !! n' = tbl !! n'.
Proof.
  intros Hne. unfold register.
  destruct (tbl !! n); destruct ow; cbn [negb];
    rewrite lookup_insert_ne; auto.
Qed.

(** A call with a coroutine function succeeds and touches only the table
    of its kind. *)
Lemma add_listener_run func ev ow once m :
  h_async func = true ->
  add_listener func ev ow once m =
    (Done tt,
     {| client :=
          if once then
            set_once_events
              (register (once_events (client m)) (listener_key func ev) func ow)
              (client m)
          else
            set_events
              (register (events (client m)) (listener_key func ev) func ow)
              (client m);
        history := history m |}).
Proof.
  intros Ha. unfold add_listener. rewrite Ha. cbn [negb].
  destruct once; reflexivity.
Qed.

Lemma add_listener_rejects func ev ow once m :
  h_async func = false ->
  exists e, add_listener func ev ow once m = (Raised e, m) /\
            exn_class e = TypeError.
Proof.
  intros Ha. unfold add_listener. rewrite Ha. cbn [negb].
  eexists. split; reflexivity.
Qed.

Lemma listeners_after_add func ev ow once m m' :
  h_async func = true ->
  add_listener func ev ow once m = (Done tt, m') ->
  listeners once (client m') (listener_key func ev) =
    if ow then [func]
    else listeners once (client m) (listener_key func ev) ++ [func].
Proof.
  intros Ha Hrun. rewrite (add_listener_run _ _ _ _ _ Ha) in Hrun.
  injection Hrun as <-. unfold listeners.
  destruct once, ow; cbn;
    auto using register_append, register_overwrite.
Qed.

Lemma add_listeners_run calls once n m :
  Forall (fun fe => h_async (fst fe) = true /\
                    listener_key (fst fe) (snd fe) = n) calls ->
  exists m', add_listeners calls once m = (Done tt, m') /\
             history m' = history m /\
             listeners once (client m') n =
               listeners once (client m) n ++ map fst calls.
Proof.
  intros Hall. revert m.
  induction Hall as [|[func ev] calls [Ha Hk] _ IH]; intros m.
  - exists m. cbn. rewrite app_nil_r. auto.
  - cbn [fst snd] in Ha, Hk.
    destruct (IH (snd (add_listener func ev false once m)))
      as (m' & Hrun & Hh & Hl).
    exists m'. unfold add_listeners in *. cbn [for_each fst snd].
    unfold bind at 1.
    pose proof (listeners_after_add func ev false once m) as Hone.
    rewrite (add_listener_run _ _ _ _ _ Ha) in *. cbn [snd] in *.
    split; [exact Hrun|]. split; [exact Hh|].
    rewrite Hl, Hk in *. rewrite (Hone _ Ha eq_refl).
    cbn [map fst]. rewrite <- app_assoc. reflexivity.
Qed.

End Registry.

(** C7. For a name [n] and a kind [once]: a series of [add_listener] calls
    without [overwrite] whose key is [n] appends the handlers in call order
    to the list that lookup returns; a call with [overwrite] leaves exactly
    the new handler, and the calls after it append to that fresh list, so
    nothing registered before the overwrite is left. *)
Theorem add_listener_order (once : bool) (n : string) (m : Machine)
    (calls : list (Handler * option string)) (h : Handler) (ev : option string) :
  Forall (fun fe => h_async (fst fe) = true /\
                    listener_key (fst fe) (snd fe) = n) calls ->
  h_async h = true ->
  listener_key h ev = n ->
  (exists m1, add_listeners calls once m = (Done tt, m1) /\
              listeners once (client m1) n =
                listeners once (client m) n ++ map fst calls) /\
  (exists m2, (add_listener h ev true once ;; add_listeners calls once) m
                = (Done tt, m2) /\
              listeners once (client m2) n = h :: map fst calls).
Proof.
  intros Hcalls Hh Hk. split.
  - destruct (add_listeners_run calls once n m Hcalls) as (m1 & H1 & _ & H2).
    eauto.
  - subst n. unfold bind at 1.
    pose proof (listeners_after_add h ev true once m) as Hone.
    rewrite (add_listener_run _ _ _ _ _ Hh) in *.
    specialize (Hone _ Hh eq_refl).
    match goal with |- context [add_listeners calls once ?mm] =>
      destruct (add_listeners_run calls once _ mm Hcalls) as (m2 & H1 & _ & H2)
    end.
    exists m2. split; [exact H1|]. rewrite H2, Hone. reflexivity.
Qed.

Lemma add_listener_order_witness :
  (exists m1, add_listeners [(on_ready, Some "ready"); (on_ready2, Some "ready")]
                false (boot client0) = (Done tt, m1) /\
              listeners false (client m1) "ready" =
                listeners false (client (boot client0)) "ready" ++
                map fst [(on_ready, Some "ready"); (on_ready2, Some "ready")]) /\
  (exists m2, (add_listener READY (Some "ready") true false ;;
               add_listeners [(on_ready, Some "ready"); (on_ready2, Some "ready")]
                 false) (boot client0) = (Done tt, m2) /\
              listeners false (client m2) "ready" =
                READY :: map fst [(on_ready, Some "ready"); (on_ready2, Some "ready")]).
Proof.
  apply (add_listener_order false "ready" (boot client0)
           [(on_ready, Some "ready"); (on_ready2, Some "ready")]
           READY (Some "ready")).
  - repeat constructor.
  - reflexivity.
  - reflexivity.
Defined.

(** ** Command registry *)

Section Commands.

Implicit Types (items : list (string * Command.t)) (m : Machine).

Lemma has_command_lookup n items :
  has_command n items = true <-> is_Some (lookup_command n items).
Proof.
  induction items as [|[k c] items IH]; cbn.
  - split; [discriminate | intros [? ?]; discriminate].
  - destruct (String.eqb k n); cbn; [|exact IH].
    split; eauto.
Qed.

Lemma lookup_command_fresh n c items :
  has_command n items = false ->
  lookup_command n (items ++ [(n, c)]) = Some c.
Proof.
  induction items as [|[k c'] items IH]; cbn.
  - rewrite String.eqb_refl. reflexivity.
  - destruct (String.eqb k n); cbn; [discriminate | exact IH].
Qed.

Lemma add_command_fresh c m :
  has_command (Command.name c) (commands (client m)) = false ->
  add_command c m =
    (Done c,
     {| client := set_commands
                    (commands (client m) ++ [(Command.name c, c)]) (client m);
        history := history m |}).
Proof. intros H. unfold add_command, bind, gets. cbn. rewrite H. reflexivity. Qed.

(** After a successful registration the name resolves to the command. *)
Lemma add_command_registers c r m m1 :
  add_command c m = (Done r, m1) ->
  r = c /\ lookup_command (Command.name c) (commands (client m1)) = Some c.
Proof.
  unfold add_command, bind, gets. cbn.
  destruct (has_command (Command.name c) (commands (client m))) eqn:E;
    [discriminate|].
  cbn. intros [= <- <-]. cbn. auto using lookup_command_fresh.
Qed.

(** The loop returns the first entry that its own rule accepts. *)
Lemma find_command_first items n :
  find_command items n = snd <$> find (accepts n) items.
Proof.
  induction items as [|[k c] items IH]; [reflexivity|].
  cbn [find_command find]. unfold accepts at 1. cbn [fst snd].
  destruct (Command.is_regex_command c).
  - destruct (Command.regex_match_func c k n (Command.regex_flags c));
      [reflexivity | exact IH].
  - destruct (String.eqb k n); [reflexivity | exact IH].
Qed.

Lemma find_command_skip pre rest n :
  Forall (fun kc => accepts n kc = false) pre ->
  find_command (pre ++ rest) n = find_command rest n.
Proof.
  induction 1 as [|[k c] pre Hk _ IH]; [reflexivity|].
  cbn [app find_command]. unfold accepts in Hk. cbn [fst snd] in Hk.
  destruct (Command.is_regex_command c); rewrite Hk; exact IH.
Qed.

Lemma find_command_here k c rest n :
  accepts n (k, c) = true -> find_command ((k, c) :: rest) n = Some c.
Proof.
  unfold accepts. cbn [fst snd find_command].
  destruct (Command.is_regex_command c); intros ->; reflexivity.
Qed.

(** An exactly named plain command is found when nothing before it is
    accepted. *)
Lemma find_command_exact pre c post n :
  Command.is_regex_command c = false ->
  Forall (fun kc => accepts n kc = false) pre ->
  find_command (pre ++ (n, c) :: post) n = Some c.
Proof.
  intros Hplain Hpre. rewrite (find_command_skip _ _ _ Hpre).
  apply find_command_here. unfold accepts. cbn. rewrite Hplain.
  apply String.eqb_refl.
Qed.

End Commands.

Lemma add_command_rejects (m : Machine) (c : Command.t) :
  has_command (Command.name c) (commands (client m)) = true ->
  add_command c m = (Raised (mk_exn ValueError "Duplicate command name"), m).
Proof. intros Hin. unfold add_command, bind, gets. cbn. rewrite Hin. reflexivity. Qed.

(** C9. Registering a command whose name is already a key of the registry
    raises the duplicate-name error ([ValueError]) and leaves the client as
    it was: the name still resolves to the command registered first. *)
Theorem add_command_duplicate (m : Machine) (c first : Command.t) :
  lookup_command (Command.name c) (commands (client m)) = Some first ->
  add_command c m = (Raised (mk_exn ValueError "Duplicate command name"), m) /\
  lookup_command (Command.name c) (commands (client (snd (add_command c m))))
    = Some first.
Proof.
  intros Hfirst.
  assert (Hdup : add_command c m =
                 (Raised (mk_exn ValueError "Duplicate command name"), m)).
  { apply add_command_rejects, has_command_lookup. eauto. }
  split; [exact Hdup|]. rewrite Hdup. exact Hfirst.
Qed.

Lemma add_command_duplicate_witness :
  let m1 := snd (add_command cmd_echo (boot client0)) in
  add_command cmd_echo2 m1 =
    (Raised (mk_exn ValueError "Duplicate command name"), m1) /\
  lookup_command "echo" (commands (client (snd (add_command cmd_echo2 m1))))
    = Some cmd_echo.
Proof.
  apply (add_command_duplicate (snd (add_command cmd_echo (boot client0)))
           cmd_echo2 cmd_echo).
  reflexivity.
Defined.

(** Two registrations in a row under one name: the second fails and the
    first stays. *)
Lemma add_command_twice (m m1 : Machine) (c1 c2 r : Command.t) :
  add_command c1 m = (Done r, m1) ->
  Command.name c2 = Command.name c1 ->
  add_command c2 m1 = (Raised (mk_exn ValueError "Duplicate command name"), m1) /\
  lookup_command (Command.name c1) (commands (client m1)) = Some c1.
Proof.
  intros Hrun Hname. apply add_command_registers in Hrun as [_ Hl].
  split; [|exact Hl].
  apply add_command_rejects, has_command_lookup. rewrite Hname. eauto.
Qed.

(** C5, as stated, fails: with a pattern command registered before the
    plain command [echo], the exact key [echo] is present and the
    two-tier resolution of the specification returns the plain command,
    but the code returns the pattern command. *)
Lemma get_command_named_shadowed :
  lookup_command "echo" (commands client_shadowed) = Some cmd_echo /\
  Command.is_regex_command cmd_echo = false /\
  spec_resolve client_shadowed "echo" = Some cmd_echo /\
  get_command_named client_shadowed "echo" = Some cmd_pattern /\
  Command.uid cmd_pattern <> Command.uid cmd_echo.
Proof. repeat split; try reflexivity. discriminate. Qed.

Lemma find_command_spec (items : list (string * Command.t)) (n : string) :
  match find_command items n with
  | Some cmd =>
      exists pre k post,
        items = pre ++ (k, cmd) :: post /\
        accepts n (k, cmd) = true /\
        Forall (fun kc => accepts n kc = false) pre
  | None => Forall (fun kc => accepts n kc = false) items
  end.
Proof.
  induction items as [|[k c] items IH]; [constructor|].
  destruct (accepts n (k, c)) eqn:Hacc.
  - rewrite (find_command_here _ _ _ _ Hacc).
    exists [], k, items. auto.
  - change ((k, c) :: items) with ([(k, c)] ++ items) at 1.
    rewrite (find_command_skip [(k, c)] items n) by (constructor; auto).
    destruct (find_command items n) as [cmd|].
    + destruct IH as (pre & k' & post & -> & Hk & Hpre).
      exists ((k, c) :: pre), k', post. auto.
    + constructor; auto.
Qed.

(** C5, amended. [get_command_named] makes one pass over the registry in
    registration order and returns the first command that its own rule
    accepts: a pattern command whose match function accepts the name under
    its flags, or a plain command whose key is the name; it returns [None]
    exactly when no entry is accepted.  So a plain command whose key is the
    name is returned when no entry registered before it is accepted. *)
Theorem get_command_named_first_accepted (c : Client) (n : string) :
  match get_command_named c n with
  | Some cmd =>
      exists pre k post,
        commands c = pre ++ (k, cmd) :: post /\
        accepts n (k, cmd) = true /\
        Forall (fun kc => accepts n kc = false) pre
  | None => Forall (fun kc => accepts n kc = false) (commands c)
  end /\
  (forall pre cmd post,
      commands c = pre ++ (n, cmd) :: post ->
      Command.is_regex_command cmd = false ->
      Forall (fun kc => accepts n kc = false) pre ->
      get_command_named c n = Some cmd).
Proof.
  split.
  - apply find_command_spec.
  - intros pre cmd post Heq Hplain Hpre. unfold get_command_named.
    rewrite Heq. apply find_command_exact; assumption.
Qed.

Lemma get_command_named_first_accepted_witness :
  get_command_named client_plain_first "echo" = Some cmd_echo.
Proof.
  apply (proj2 (get_command_named_first_accepted client_plain_first "echo")
           [] cmd_echo [("ec", cmd_pattern)]).
  - reflexivity.
  - reflexivity.
  - constructor.
Defined.

(** ** Command pipeline *)

(** C8. A message whose author is a bot account stops [process_commands]
    (and the default [message_create] listener) at its first statement:
    the message is not parsed, no command body is executed and nothing of
    the client changes, whatever the parser, the registry and the
    configuration of the client are. *)
Theorem process_commands_ignores_bots (rt : Runtime) (message : Message.t)
    (m : Machine) :
  Author.bot (Message.author message) = true ->
  process_commands rt message m = (Done tt, m) /\
  handle_commands rt message m = (Done tt, m).
Proof.
  intros Hbot. unfold handle_commands, process_commands. rewrite Hbot.
  split; reflexivity.
Qed.

Lemma process_commands_ignores_bots_witness :
  process_commands rt_echo bot_message (boot client0) = (Done tt, boot client0) /\
  handle_commands rt_echo bot_message (boot client0) = (Done tt, boot client0).
Proof.
  apply (process_commands_ignores_bots rt_echo bot_message (boot client0)).
  reflexivity.
Defined.

(** The same text from a human account does reach the command body. *)
Example process_commands_runs_humans :
  process_commands rt_echo human_message (boot client0) =
    (Done tt,
     {| client := client0;
        history := [AParse human_message;
                    AExecute cmd_echo human_message [VData 0] []] |}).
Proof. reflexivity. Qed.

(** ** Connection supervisor *)

Section Supervisor.

Variable rt : Runtime.
Implicit Types (m : Machine) (fuel : nat).

(** With no session assigned, [close] sets the flag and then fails on
    [self.ws]; the REST layer is not closed. *)
Lemma close_without_session m :
  ws (client m) = None ->
  close rt m =
    (Raised no_ws_error,
     {| client := set_closed true (client m); history := history m |}).
Proof.
  intros Hws. unfold close, bind, modify, get_ws, gets. cbn. rewrite Hws.
  reflexivity.
Qed.

Lemma close_with_session m s :
  ws (client m) = Some s ->
  exists m', snd (close rt m) = m' /\
             closed (client m') = true /\
             exists rest, history m' = history m ++ AWsClose s :: rest.
Proof.
  intros Hws. eexists. split; [reflexivity|].
  unfold close, bind, modify, get_ws, gets, await, await_reply, lift. cbn.
  rewrite Hws. cbn.
  destruct (ws_close rt s (history m)) as [cc [e|[]]]; cbn.
  - split; [destruct cc; reflexivity|]. exists []. reflexivity.
  - destruct (http_close rt (history m ++ [AWsClose s])) as [cc' [e|[]]]; cbn;
      (split; [destruct cc', cc; reflexivity|]);
      exists [AHttpClose]; rewrite <- app_assoc; reflexivity.
Qed.

(** The first iteration of [connect] up to the end of the locked block,
    when the REST request fails. *)
Lemma connect_gateway_fails fuel m tok e :
  closed (client m) = false ->
  token (client m) = Some tok ->
  gateway_answer rt m tok = inl e ->
  exists m',
    connect rt (S fuel) m = (Raised e, m') /\
    history m' = history m ++ [ANewSocket tok; AAcquire; AGateway; ARelease] /\
    ws (client m') = ws (client m).
Proof.
  unfold gateway_answer. intros Hc Ht Hg.
  cbn [connect]. unfold bind at 1. unfold gets at 1. rewrite Hc.
  unfold bind at 1. unfold get_token, bind at 1, gets at 1. rewrite Ht.
  unfold ret at 1. unfold bind at 1. unfold emit at 1. cbn [client history].
  unfold bind at 1. unfold with_lock, bind at 1, emit at 1. cbn [client history].
  unfold finally, bind at 1, await at 1, bind at 1, await_reply at 1.
  cbn [client history]. rewrite Hg. cbn [lift raise emit client history].
  eexists. split; [reflexivity|]. cbn [client history].
  split; [rewrite <- !app_assoc; reflexivity|].
  destruct (close_called _); reflexivity.
Qed.

Lemma connect_after_gateway fuel m tok url :
  closed (client m) = false ->
  token (client m) = Some tok ->
  gateway_answer rt m tok = inr url ->
  (isinstance_Intents (intents (client m)) = false ->
   exists m',
     connect rt (S fuel) m = (Raised (intents_error (intents (client m))), m') /\
     history m' = history m ++ [ANewSocket tok; AAcquire; AGateway; ARelease] /\
     ws (client m') = ws (client m)) /\
  (forall e,
      isinstance_Intents (intents (client m)) = true ->
      start_answer rt m tok url = inl e ->
      exists m',
        connect rt (S fuel) m = (Raised e, m') /\
        history m' =
          history m ++ [ANewSocket tok; AAcquire; AGateway; AStart url; ARelease] /\
        ws (client m') = ws (client m)).
Proof.
  unfold gateway_answer, start_answer. intros Hc Ht Hg.
  assert (Hi : forall b : bool,
             intents (if b then set_closed true (client m) else client m)
             = intents (client m)) by (intros []; reflexivity).
  split; [intros Hbad | intros e Hgood Hs];
    cbn [connect]; unfold bind at 1; unfold gets at 1; rewrite Hc;
    unfold bind at 1; unfold get_token, bind at 1, gets at 1; rewrite Ht;
    unfold ret at 1; unfold bind at 1; unfold emit at 1; cbn [client history];
    unfold bind at 1; unfold with_lock, bind at 1, emit at 1;
    cbn [client history];
    unfold finally, bind at 1, await at 1, bind at 1, await_reply at 1;
    cbn [client history]; rewrite Hg; cbn [lift ret];
    unfold bind at 1, gets at 1; cbn [client history]; rewrite Hi.
  - rewrite Hbad. cbn [negb raise emit client history].
    eexists. split; [reflexivity|]. cbn [client history].
    split; [rewrite <- !app_assoc; reflexivity|].
    destruct (close_called _); reflexivity.
  - rewrite Hgood. cbn [negb]. unfold bind at 1, await_reply at 1.
    cbn [client history]. unfold bind at 1. rewrite Hs.
    cbn [lift raise emit client history].
    eexists. split; [reflexivity|]. cbn [client history].
    split; [rewrite <- !app_assoc; reflexivity|].
    repeat destruct (close_called _); reflexivity.
Qed.

End Supervisor.

(** C1, as stated, fails: when the gateway socket does not start within
    the timeout, the first iteration of [connect] ends [connect] itself
    with the timeout error, although the client is not closed; exactly one
    socket was built and none is built after it. *)
Lemma connect_timeout_propagates :
  closed (client (logged_in client0)) = false /\
  (forall fuel,
      connect rt_timeout (S fuel) (logged_in client0) =
        (Raised (mk_exn TimeoutError ""),
         {| client := set_token "token" client0;
            history := [ANewSocket "token"; AAcquire; AGateway;
                        AStart "wss://gateway"; ARelease] |})).
Proof. split; [reflexivity | intros fuel; reflexivity]. Qed.

(** C1, amended. In an iteration of the outer loop of [connect] (client not
    closed, token set), a failure of the gateway-address request, or a
    failure or timeout of the start of the new socket, is not caught: it
    ends [connect] with that very error.  One socket was built in the call,
    no session was assigned and no further attempt is made. *)
Theorem connect_failure_propagates (rt : Runtime) (fuel : nat) (m : Machine)
    (tok : string) (e : Exn) :
  closed (client m) = false ->
  token (client m) = Some tok ->
  (gateway_answer rt m tok = inl e \/
   exists url,
     gateway_answer rt m tok = inr url /\
     isinstance_Intents (intents (client m)) = true /\
     start_answer rt m tok url = inl e) ->
  exists m' attempt,
    connect rt (S fuel) m = (Raised e, m') /\
    history m' = history m ++ ANewSocket tok :: attempt /\
    filter is_new_socket attempt = [] /\
    ws (client m') = ws (client m).
Proof.
  intros Hc Ht [Hg | (url & Hg & Hi & Hs)].
  - destruct (connect_gateway_fails rt fuel m tok e Hc Ht Hg) as (m' & H1 & H2 & H3).
    exists m', [AAcquire; AGateway; ARelease]. auto.
  - destruct (connect_after_gateway rt fuel m tok url Hc Ht Hg) as [_ Hstart].
    destruct (Hstart e Hi Hs) as (m' & H1 & H2 & H3).
    exists m', [AAcquire; AGateway; AStart url; ARelease]. auto.
Qed.

Lemma connect_failure_propagates_witness :
  exists m' attempt,
    connect rt_timeout 1 (logged_in client0)
      = (Raised (mk_exn TimeoutError ""), m') /\
    history m' = history (logged_in client0) ++ ANewSocket "token" :: attempt /\
    filter is_new_socket attempt = [] /\
    ws (client m') = ws (client (logged_in client0)).
Proof.
  apply (connect_failure_propagates rt_timeout 0 (logged_in client0) "token"
           (mk_exn TimeoutError "")).
  - reflexivity.
  - reflexivity.
  - right. exists "wss://gateway". repeat split; reflexivity.
Defined.

(** C2, as stated, fails: with intents that are not an [Intents] value,
    [connect] has already built the socket and asked the REST layer for the
    gateway address when it raises the type error. *)
Lemma connect_checks_intents_after_gateway :
  isinstance_Intents (intents (client (logged_in client_bad_intents))) = false /\
  (forall fuel,
      connect rt_ok (S fuel) (logged_in client_bad_intents) =
        (Raised (intents_error (NotIntents "int")),
         {| client := set_token "token" client_bad_intents;
            history := [ANewSocket "token"; AAcquire; AGateway; ARelease] |})).
Proof. split; [reflexivity | intros fuel; reflexivity]. Qed.

(** C2, amended. For a client that is not closed, has its token and whose
    intents are not an [Intents] value, [connect] fails in its first
    iteration, before the gateway socket is started and with no session
    assigned; the request for the gateway address is made first, and
    [connect] raises the type error when that request succeeds and the
    request's own error when it fails. *)
Theorem connect_bad_intents (rt : Runtime) (fuel : nat) (m : Machine)
    (tok : string) :
  closed (client m) = false ->
  token (client m) = Some tok ->
  isinstance_Intents (intents (client m)) = false ->
  exists m',
    connect rt (S fuel) m =
      (Raised match gateway_answer rt m tok with
              | inl e => e
              | inr _ => intents_error (intents (client m))
              end, m') /\
    history m' = history m ++ [ANewSocket tok; AAcquire; AGateway; ARelease] /\
    ws (client m') = ws (client m).
Proof.
  intros Hc Ht Hbad. destruct (gateway_answer rt m tok) as [e|url] eqn:Hg.
  - exact (connect_gateway_fails rt fuel m tok e Hc Ht Hg).
  - exact (proj1 (connect_after_gateway rt fuel m tok url Hc Ht Hg) Hbad).
Qed.

Lemma connect_bad_intents_witness :
  exists m',
    connect rt_ok 1 (logged_in client_bad_intents) =
      (Raised match gateway_answer rt_ok (logged_in client_bad_intents) "token" with
              | inl e => e
              | inr _ => intents_error (intents (client (logged_in client_bad_intents)))
              end, m') /\
    history m' = history (logged_in client_bad_intents) ++
                 [ANewSocket "token"; AAcquire; AGateway; ARelease] /\
    ws (client m') = ws (client (logged_in client_bad_intents)).
Proof.
  apply (connect_bad_intents rt_ok 0 (logged_in client_bad_intents) "token");
    reflexivity.
Defined.

(** C10, as stated, fails for [login]: when the REST layer rejects the
    token, [alive_loop] ends with that error, the client is not marked
    closed and [close] is not called, as [login] runs before the [try]. *)
Lemma alive_loop_login_failure_skips_close :
  ws client0 = None /\
  (forall fuel,
      alive_loop rt_auth fuel "token" (boot client0) =
        (Raised auth_error,
         {| client := set_token "token" client0;
            history := [AAcquire; ALogin "token"; ARelease] |})) /\
  closed (set_token "token" client0) = false.
Proof. repeat split. Qed.

(** C10, amended. When [login] raises, [alive_loop] ends with that error
    and never calls [close].  When [login] succeeded and [connect] raises
    while no session is assigned, the [finally] clause calls [close], which
    marks the client closed and then raises the attribute error on
    [self.ws]: that error replaces the one of [connect] and the REST layer
    is not closed.  In any state without a session [close] fails this
    way. *)
Theorem alive_loop_cleanup (rt : Runtime) (fuel : nat) (tok : string) (m : Machine) :
  (forall e m1,
      login rt tok m = (Raised e, m1) ->
      alive_loop rt fuel tok m = (Raised e, m1)) /\
  (forall e m1 m2,
      login rt tok m = (Done tt, m1) ->
      connect rt fuel m1 = (Raised e, m2) ->
      ws (client m2) = None ->
      alive_loop rt fuel tok m =
        (Raised no_ws_error,
         {| client := set_closed true (client m2); history := history m2 |})) /\
  (ws (client m) = None ->
   close rt m =
     (Raised no_ws_error,
      {| client := set_closed true (client m); history := history m |})).
Proof.
  split; [|split].
  - intros e m1 Hl. unfold alive_loop, bind. rewrite Hl. reflexivity.
  - intros e m1 m2 Hl Hc Hws. unfold alive_loop, bind. rewrite Hl.
    unfold finally. rewrite Hc, (close_without_session rt m2 Hws). reflexivity.
  - apply close_without_session.
Qed.

Lemma alive_loop_cleanup_witness :
  alive_loop rt_timeout 3 "token" (boot client0) =
    (Raised no_ws_error,
     {| client := set_closed true (set_info 7 (set_token "token" client0));
        history := [AAcquire; ALogin "token"; ARelease; ANewSocket "token";
                    AAcquire; AGateway; AStart "wss://gateway"; ARelease] |}).
Proof.
  apply (proj1 (proj2 (alive_loop_cleanup rt_timeout 3 "token" (boot client0)))
           (mk_exn TimeoutError "")
           {| client := set_info 7 (set_token "token" client0);
              history := [AAcquire; ALogin "token"; ARelease] |}
           {| client := set_info 7 (set_token "token" client0);
              history := [AAcquire; ALogin "token"; ARelease; ANewSocket "token";
                          AAcquire; AGateway; AStart "wss://gateway"; ARelease] |});
    reflexivity.
Defined.

(** A run in which every collaborator answers: one session, one receive,
    and a clean shutdown. *)
Example alive_loop_clean_run :
  alive_loop rt_ok 3 "token" (boot client0) =
    (Done tt,
     {| client := set_closed true
                    (set_ws {| session_id := 0; session_url := "wss://gateway" |}
                       (set_info 7 (set_token "token" client0)));
        history :=
          [AAcquire; ALogin "token"; ARelease; ANewSocket "token"; AAcquire;
           AGateway; AStart "wss://gateway"; ARelease;
           AReceive {| session_id := 0; session_url := "wss://gateway" |};
           AWsClose {| session_id := 0; session_url := "wss://gateway" |};
           AHttpClose] |}).
Proof. reflexivity. Qed.

(** ** Event dispatcher: runs that finish *)


Section Runs.

Context {A B : Type}.
Implicit Types (m : Machine) (new : list Action).

Lemma runs_eq (x : M A) m a new new' c c' :
  runs x m a new c -> new = new' -> c = c' -> runs x m a new' c'.
Proof. intros H <- <-. exact H. Qed.

Lemma runs_ret (a : A) m : runs (ret a) m a [] (client m).
Proof. unfold runs, ret. rewrite app_nil_r. destruct m; reflexivity. Qed.

Lemma runs_gets (f : Client -> A) m : runs (gets f) m (f (client m)) [] (client m).
Proof. unfold runs, gets. rewrite app_nil_r. destruct m; reflexivity. Qed.

Lemma runs_lift (r : Exn + A) (a : A) m :
  r = inr a -> runs (lift r) m a [] (client m).
Proof. intros ->. apply runs_ret. Qed.

Lemma runs_bind (x : M A) (k : A -> M B) m a b n1 n2 c1 c2 :
  runs x m a n1 c1 ->
  runs (k a) {| client := c1; history := history m ++ n1 |} b n2 c2 ->
  runs (bind x k) m b (n1 ++ n2) c2.
Proof.
  unfold runs, bind. intros -> ->. cbn [history]. rewrite app_assoc.
  reflexivity.
Qed.

End Runs.

Section Dispatch.

Variable rt : Runtime.
Implicit Types (m : Machine) (fuel : nat) (hs : list Handler).

Lemma runs_emit a m : runs (emit a) m tt [a] (client m).
Proof. reflexivity. Qed.

Lemma runs_modify f m : runs (modify f) m tt [] (f (client m)).
Proof. unfold runs, modify. rewrite app_nil_r. reflexivity. Qed.

Lemma handle_event_S fuel msg :
  handle_event rt (S fuel) msg =
    (emit (ADispatch (lower (msg_t msg)) (msg_d msg)) ;;
     let* args := lift (convert rt (lower (msg_t msg)) (msg_d msg)) in
     let* persistent :=
       gets (fun c => default [] (events c !! lower (msg_t msg))) in
     for_each persistent
       (schedule rt (handle_event rt fuel) false (lower (msg_t msg)) args) ;;
     let* drained := pop_once (lower (msg_t msg)) in
     for_each drained
       (schedule rt (handle_event rt fuel) true (lower (msg_t msg)) args)).
Proof. reflexivity. Qed.

Lemma for_each_app {X} (l1 l2 : list X) (body : X -> M unit) m :
  for_each (l1 ++ l2) body m = (for_each l1 body ;; for_each l2 body) m.
Proof.
  revert m. induction l1 as [|x l1 IH]; intros m; [reflexivity|].
  cbn [app for_each]. unfold bind.
  destruct (body x m) as [[[]| |] m1]; try reflexivity.
  rewrite IH. reflexivity.
Qed.

Lemma runs_for_each_app {X} (l1 l2 : list X) (body : X -> M unit)
    m n1 n2 c1 c2 :
  runs (for_each l1 body) m tt n1 c1 ->
  runs (for_each l2 body) {| client := c1; history := history m ++ n1 |} tt n2 c2 ->
  runs (for_each (l1 ++ l2) body) m tt (n1 ++ n2) c2.
Proof.
  intros H1 H2. unfold runs. rewrite for_each_app.
  exact (runs_bind _ _ _ _ _ _ _ _ _ H1 H2).
Qed.

(** A loop in which every task is created. *)
Lemma runs_all_scheduled k once event args hs m :
  Forall (fun h => create_task rt h args = None) hs ->
  runs (for_each hs (schedule rt k once event args)) m tt
       (tasks once event args hs) (client m).
Proof.
  intros Hall. revert m. induction Hall as [|h hs Hh _ IH]; intros m.
  - apply runs_ret.
  - cbn [for_each tasks map].
    change (ATask once event h args :: map (fun g => ATask once event g args) hs)
      with ([ATask once event h args] ++ tasks once event args hs).
    eapply runs_bind.
    + unfold schedule. rewrite Hh. apply runs_emit.
    + apply (IH {| client := client m;
                   history := history m ++ [ATask once event h args] |}).
Qed.

Lemma runs_pop_once event m :
  runs (pop_once event) m (listeners true (client m) event)
       [ADrain event (listeners true (client m) event)]
       (set_once_events (delete event (once_events (client m))) (client m)).
Proof. reflexivity. Qed.

(** A dispatch in which the payload converts and every task is
    created. *)
Lemma runs_quiet_dispatch fuel m ty payload args :
  convert rt (lower ty) payload = inr args ->
  Forall (fun h => create_task rt h args = None)
         (listeners false (client m) (lower ty) ++
          listeners true (client m) (lower ty)) ->
  runs (handle_event rt (S fuel) {| msg_t := ty; msg_d := payload |}) m tt
       (quiet_dispatch (client m) (lower ty) payload args)
       (set_once_events (delete (lower ty) (once_events (client m))) (client m)).
Proof.
  intros Hconv Hall. apply Forall_app in Hall as [Hp Ho].
  rewrite handle_event_S. cbn [msg_t msg_d].
  eapply runs_eq.
  - eapply runs_bind; [apply runs_emit|].
    eapply runs_bind; [apply runs_lift, Hconv|].
    eapply runs_bind; [apply runs_gets|]. cbn [client history].
    eapply runs_bind; [apply runs_all_scheduled, Hp|].
    eapply runs_bind; [apply runs_pop_once|]. cbn [client history].
    apply runs_all_scheduled, Ho.
  - reflexivity.
  - reflexivity.
Qed.

End Dispatch.

(** On ASCII text [lower] stays within ASCII and is idempotent: a name
    that is the lower-casing of an ASCII type is itself an ASCII name in
    lower case. *)
Lemma is_ascii_lower (s : string) : is_ascii (lower s) = is_ascii s.
Proof.
  induction s as [|c s IH]; [reflexivity|].
  cbn [lower is_ascii]. rewrite IH. f_equal.
  destruct c as [[] [] [] [] [] [] [] []]; reflexivity.
Qed.

Lemma lower_idempotent (s : string) : lower (lower s) = lower s.
Proof.
  induction s as [|c s IH]; [reflexivity|].
  cbn [lower]. rewrite IH. f_equal.
  destruct c as [[] [] [] [] [] [] [] []]; reflexivity.
Qed.

(** C6, as stated, fails: a listener registered under the upper-case name
    [READY] is stored under that key, the dispatcher looks up the
    lower-cased name [ready], and the envelope of type [READY] creates no
    task. *)
Lemma uppercase_listener_not_invoked :
  listeners false (client client_upper) "READY" = [READY] /\
  msg_t ready_msg = "READY" /\
  (forall fuel,
      fst (handle_event rt_ok (S fuel) ready_msg client_upper) = Done tt /\
      history (snd (handle_event rt_ok (S fuel) ready_msg client_upper)) =
        [ADispatch "ready" (VData 1); ADrain "ready" []]).
Proof. repeat split. Qed.

(** C6, amended. The dispatcher lower-cases the type of the envelope and
    looks that key up as it is.  For an envelope whose type is ASCII text,
    and a name [N] that is in lower case and equals the type up to letter
    case (so [N] is ASCII too), the dispatch creates a task for every
    persistent and then every one-shot listener stored under [N] (when the
    payload converts and no task creation raises). *)
Theorem dispatch_matches_lowercase_name (rt : Runtime) (fuel : nat) (m : Machine)
    (N ty : string) (payload : Value) (args : list Value) :
  is_ascii ty = true ->
  lower N = N ->
  lower ty = lower N ->
  convert rt N payload = inr args ->
  Forall (fun h => create_task rt h args = None)
         (listeners false (client m) N ++ listeners true (client m) N) ->
  handle_event rt (S fuel) {| msg_t := ty; msg_d := payload |} m =
    (Done tt,
     {| client := set_once_events (delete N (once_events (client m))) (client m);
        history := history m ++ quiet_dispatch (client m) N payload args |}).
Proof.
  intros _ HN Hty Hconv Hall. rewrite HN in Hty. rewrite <- Hty in *.
  exact (runs_quiet_dispatch rt fuel m ty payload args Hconv Hall).
Qed.

Lemma dispatch_matches_lowercase_name_witness :
  handle_event rt_ok 1 {| msg_t := "X"; msg_d := VData 1 |} client_x =
    (Done tt,
     {| client := set_once_events (delete "x" (once_events (client client_x)))
                    (client client_x);
        history := history client_x ++
                   quiet_dispatch (client client_x) "x" (VData 1) [VData 1] |}).
Proof.
  apply (dispatch_matches_lowercase_name rt_ok 0 client_x "x" "X" (VData 1)
           [VData 1]).
  - reflexivity.
  - reflexivity.
  - reflexivity.
  - reflexivity.
  - repeat constructor.
Defined.

(** ** Event dispatcher: a handler that raises while it is scheduled *)

Section Isolation.

Variable rt : Runtime.
Implicit Types (m : Machine) (fuel : nat) (hs : list Handler).

Lemma listeners_delete_once_ne once c e x :
  e <> x ->
  listeners once (set_once_events (delete e (once_events c)) c) x =
  listeners once c x.
Proof.
  intros Hne. unfold listeners. destruct once; cbn; [|reflexivity].
  rewrite lookup_delete_ne by exact Hne. reflexivity.
Qed.

(** The nested dispatch of [event_error] when nothing fails in it. *)
Lemma runs_error_dispatch fuel m report eargs :
  convert rt "event_error" report = inr eargs ->
  Forall (fun g => create_task rt g eargs = None)
         (listeners false (client m) "event_error" ++
          listeners true (client m) "event_error") ->
  runs (handle_event rt (S fuel) {| msg_t := "event_error"; msg_d := report |})
       m tt
       (quiet_dispatch (client m) "event_error" report eargs)
       (set_once_events (delete "event_error" (once_events (client m)))
          (client m)).
Proof. exact (runs_quiet_dispatch rt fuel m "event_error" report eargs). Qed.

(** One turn of either loop on a handler that raises an [Exception]. *)
Lemma runs_schedule_failure fuel m once x args h err eargs :
  create_task rt h args = Some err ->
  is_Exception (exn_class err) = true ->
  convert rt "event_error" (VError (set_event err h)) = inr eargs ->
  Forall (fun g => create_task rt g eargs = None)
         (listeners false (client m) "event_error" ++
          listeners true (client m) "event_error") ->
  runs (schedule rt (handle_event rt (S fuel)) once x args h) m tt
       (quiet_dispatch (client m) "event_error" (VError (set_event err h)) eargs)
       (set_once_events (delete "event_error" (once_events (client m)))
          (client m)).
Proof.
  intros Hfail Hexc Hconv Hall. unfold schedule. rewrite Hfail, Hexc.
  apply runs_error_dispatch; assumption.
Qed.

(** A loop over [pre ++ h :: post] in which only [h] raises. *)
Lemma runs_loop_with_failure fuel m once x args pre h post err eargs :
  create_task rt h args = Some err ->
  is_Exception (exn_class err) = true ->
  Forall (fun g => create_task rt g args = None) (pre ++ post) ->
  convert rt "event_error" (VError (set_event err h)) = inr eargs ->
  Forall (fun g => create_task rt g eargs = None)
         (listeners false (client m) "event_error" ++
          listeners true (client m) "event_error") ->
  runs (for_each (pre ++ h :: post)
          (schedule rt (handle_event rt (S fuel)) once x args)) m tt
       (tasks once x args pre ++
        quiet_dispatch (client m) "event_error" (VError (set_event err h)) eargs ++
        tasks once x args post)
       (set_once_events (delete "event_error" (once_events (client m)))
          (client m)).
Proof.
  intros Hfail Hexc Hrest Hconv Hall. apply Forall_app in Hrest as [Hpre Hpost].
  apply runs_for_each_app with (c1 := client m).
  - apply runs_all_scheduled, Hpre.
  - cbn [for_each]. eapply runs_bind.
    + apply (runs_schedule_failure fuel
               {| client := client m;
                  history := history m ++ tasks once x args pre |});
        assumption.
    + cbn [client]. apply runs_all_scheduled, Hpost.
Qed.

Lemma filter_error_dispatch_tasks once x args hs :
  filter is_error_dispatch (tasks once x args hs) = [].
Proof. induction hs as [|h hs IH]; [reflexivity | exact IH]. Qed.

Lemma filter_error_dispatch_quiet c report eargs :
  filter is_error_dispatch (quiet_dispatch c "event_error" report eargs) =
  [ADispatch "event_error" report].
Proof.
  unfold quiet_dispatch. rewrite !filter_app, !filter_error_dispatch_tasks.
  reflexivity.
Qed.

Lemma filter_error_dispatch_isolated c once x payload args pre post report eargs :
  x <> "event_error" ->
  filter is_error_dispatch
    (isolated_dispatch c once x payload args pre post
       (quiet_dispatch c "event_error" report eargs)) =
  [ADispatch "event_error" report].
Proof.
  intros Hx. apply String.eqb_neq in Hx.
  assert (Hhead : filter is_error_dispatch [ADispatch x payload] = []).
  { rewrite filter_cons_False; [reflexivity|].
    cbn [is_error_dispatch]. rewrite Hx. exact id. }
  unfold isolated_dispatch.
  destruct once;
    rewrite !filter_app, Hhead, !filter_error_dispatch_tasks,
      filter_error_dispatch_quiet; reflexivity.
Qed.

End Isolation.

Lemma quiet_dispatch_delete_once_ne (c : Client) (e x : string) (payload : Value)
    (args : list Value) :
  e <> x ->
  quiet_dispatch (set_once_events (delete e (once_events c)) c) x payload args =
  quiet_dispatch c x payload args.
Proof.
  intros Hne. unfold quiet_dispatch.
  rewrite !(listeners_delete_once_ne _ c e x Hne). reflexivity.
Qed.

Lemma runs_isolated_dispatch (rt : Runtime) (fuel : nat) (m : Machine)
    (ty x : string) (payload : Value) (once : bool) (pre post : list Handler)
    (h : Handler) (err : Exn) (args eargs : list Value) :
  lower ty = x ->
  x <> "event_error" ->
  convert rt x payload = inr args ->
  listeners once (client m) x = pre ++ h :: post ->
  create_task rt h args = Some err ->
  is_Exception (exn_class err) = true ->
  Forall (fun g => create_task rt g args = None)
         (pre ++ post ++ listeners (negb once) (client m) x) ->
  convert rt "event_error" (VError (set_event err h)) = inr eargs ->
  Forall (fun g => create_task rt g eargs = None)
         (listeners false (client m) "event_error" ++
          listeners true (client m) "event_error") ->
  exists c',
    runs (handle_event rt (S (S fuel)) {| msg_t := ty; msg_d := payload |}) m tt
         (isolated_dispatch (client m) once x payload args pre post
            (quiet_dispatch (client m) "event_error"
               (VError (set_event err h)) eargs))
         c'.
Proof.
  intros Hty Hx Hconv Hl Hfail Hexc Hrest Hecv Herr.
  rewrite app_assoc in Hrest. apply Forall_app in Hrest as [Hpp Hother].
  assert (Hx' : "event_error" <> x) by congruence.
  rewrite handle_event_S. cbn [msg_t msg_d]. rewrite Hty.
  destruct once; cbn [negb] in Hother.
  - (* the failing handler is one-shot *)
    eexists. eapply runs_eq.
    + eapply runs_bind; [apply runs_emit|].
      eapply runs_bind; [apply runs_lift, Hconv|].
      eapply runs_bind; [apply runs_gets|]. cbn [client history].
      eapply runs_bind; [apply runs_all_scheduled, Hother|].
      eapply runs_bind; [apply runs_pop_once|]. cbn [client history].
      rewrite Hl.
      eapply runs_loop_with_failure; eauto.
      cbn [client]. rewrite !listeners_delete_once_ne by congruence. exact Herr.
    + cbn [client]. unfold isolated_dispatch.
      rewrite quiet_dispatch_delete_once_ne by congruence.
      rewrite Hl. cbn [app]. reflexivity.
    + reflexivity.
  - (* the failing handler is persistent *)
    eexists. eapply runs_eq.
    + eapply runs_bind; [apply runs_emit|].
      eapply runs_bind; [apply runs_lift, Hconv|].
      eapply runs_bind; [apply runs_gets|]. cbn [client history].
      change (default [] (events (client m) !! x))
        with (listeners false (client m) x).
      rewrite Hl.
      eapply runs_bind; [eapply runs_loop_with_failure; eauto|].
      cbn [client history].
      eapply runs_bind; [apply runs_pop_once|]. cbn [client history].
      rewrite (listeners_delete_once_ne true (client m) _ x Hx').
      apply runs_all_scheduled.
      exact Hother.
    + cbn [client]. unfold isolated_dispatch.
      rewrite (listeners_delete_once_ne true (client m) _ x Hx').
      cbn [app]. rewrite <- !app_assoc. reflexivity.
    + reflexivity.
Qed.

(** C3, amended. Let [x] be an event other than [event_error] and [h] a
    listener of [x] (persistent or one-shot) whose scheduling raises an
    [Exception], every other listener of [x] being scheduled without
    error.  If the nested [event_error] dispatch itself completes (the
    converter accepts the tagged error and every [event_error] listener is
    scheduled), then the dispatch of [x] completes, exactly one
    [event_error] envelope is dispatched, its payload is the original error
    with [event] set to [h], and the listeners before and after [h],
    persistent and then one-shot, are all scheduled in order with the
    converted arguments. *)
Theorem handle_event_isolates_failure (rt : Runtime) (fuel : nat) (m : Machine)
    (ty x : string) (payload : Value) (once : bool) (pre post : list Handler)
    (h : Handler) (err : Exn) (args eargs : list Value) :
  lower ty = x ->
  x <> "event_error" ->
  convert rt x payload = inr args ->
  listeners once (client m) x = pre ++ h :: post ->
  create_task rt h args = Some err ->
  is_Exception (exn_class err) = true ->
  Forall (fun g => create_task rt g args = None)
         (pre ++ post ++ listeners (negb once) (client m) x) ->
  convert rt "event_error" (VError (set_event err h)) = inr eargs ->
  Forall (fun g => create_task rt g eargs = None)
         (listeners false (client m) "event_error" ++
          listeners true (client m) "event_error") ->
  exists m' new,
    handle_event rt (S (S fuel)) {| msg_t := ty; msg_d := payload |} m
      = (Done tt, m') /\
    history m' = history m ++ new /\
    new = isolated_dispatch (client m) once x payload args pre post
            (quiet_dispatch (client m) "event_error"
               (VError (set_event err h)) eargs) /\
    filter is_error_dispatch new = [ADispatch "event_error" (VError (set_event err h))].
Proof.
  intros Hty Hx Hconv Hl Hfail Hexc Hrest Hecv Herr.
  destruct (runs_isolated_dispatch rt fuel m ty x payload once pre post h err
              args eargs Hty Hx Hconv Hl Hfail Hexc Hrest Hecv Herr)
    as [c' Hrun].
  eexists _, _. split; [exact Hrun|]. cbn [history].
  split; [reflexivity|]. split; [reflexivity|].
  apply filter_error_dispatch_isolated, Hx.
Qed.

Lemma handle_event_isolates_failure_witness :
  exists m' new,
    handle_event rt_arity 2 {| msg_t := "X"; msg_d := VData 1 |} client_x
      = (Done tt, m') /\
    history m' = history client_x ++ new /\
    new = isolated_dispatch (client client_x) false "x" (VData 1) [VData 1]
            [] [on_ready]
            (quiet_dispatch (client client_x) "event_error"
               (VError (set_event arity_error broken))
               [VError (set_event arity_error broken)]) /\
    filter is_error_dispatch new =
      [ADispatch "event_error" (VError (set_event arity_error broken))].
Proof.
  apply (handle_event_isolates_failure rt_arity 0 client_x "X" "x" (VData 1)
           false [] [on_ready] broken arity_error [VData 1]
           [VError (set_event arity_error broken)]).
  - reflexivity.
  - discriminate.
  - reflexivity.
  - reflexivity.
  - reflexivity.
  - reflexivity.
  - repeat constructor.
  - reflexivity.
  - repeat constructor.
Defined.

(** The history of that run, written out. *)
Example handle_event_isolated_run :
  handle_event rt_arity 2 x_msg client_x =
    (Done tt,
     {| client := set_once_events ∅ (client client_x);
        history :=
          [ADispatch "x" (VData 1);
           ADispatch "event_error" (VError (set_event arity_error broken));
           ATask false "event_error" handle_event_error_listener
             [VError (set_event arity_error broken)];
           ADrain "event_error" [];
           ATask false "x" on_ready [VData 1];
           ADrain "x" [on_ready2];
           ATask true "x" on_ready2 [VData 1]] |}).
Proof. reflexivity. Qed.

(** When the first persistent listener raises and the nested dispatch does
    not return, neither does the dispatch. *)
Lemma handle_event_stuck (rt : Runtime) (fuel : nat) (m m' : Machine)
    (msg : Envelope) (args : list Value) (h : Handler) (rest : list Handler)
    (err : Exn) :
  convert rt (lower (msg_t msg)) (msg_d msg) = inr args ->
  listeners false (client m) (lower (msg_t msg)) = h :: rest ->
  create_task rt h args = Some err ->
  is_Exception (exn_class err) = true ->
  handle_event rt fuel
    {| msg_t := "event_error"; msg_d := VError (set_event err h) |}
    {| client := client m;
       history := history m ++ [ADispatch (lower (msg_t msg)) (msg_d msg)] |}
    = (OutOfFuel, m') ->
  handle_event rt (S fuel) msg m = (OutOfFuel, m').
Proof.
  intros Hconv Hl Hfail Hexc Hnested. rewrite handle_event_S.
  unfold bind, emit, lift, gets, ret. cbn [client history].
  rewrite Hconv. unfold listeners in Hl. cbn iota in Hl.
  cbn beta iota. cbn [client history]. rewrite Hl.
  cbn [for_each]. unfold schedule, bind. rewrite Hfail, Hexc, Hnested.
  reflexivity.
Qed.

(** With a reporter that cannot be scheduled, an [event_error] dispatch
    only ever dispatches [event_error] again. *)
Lemma error_dispatch_never_returns (fuel : nat) (payload : Value)
    (hist : list Action) :
  exists new,
    handle_event rt_arity fuel {| msg_t := "event_error"; msg_d := payload |}
      {| client := client client_x_broken_reporter; history := hist |}
    = (OutOfFuel,
       {| client := client client_x_broken_reporter; history := hist ++ new |}) /\
    Forall (fun a => is_error_dispatch a = true) new.
Proof.
  revert payload hist. induction fuel as [|fuel IH]; intros payload hist.
  - exists []. rewrite app_nil_r. split; [reflexivity | constructor].
  - destruct (IH (VError (set_event arity_error broken_reporter))
                (hist ++ [ADispatch "event_error" payload])) as (new & Hrun & Hall).
    exists (ADispatch "event_error" payload :: new). split.
    + rewrite <- app_assoc in Hrun.
      apply handle_event_stuck
        with (args := [payload]) (h := broken_reporter) (rest := [])
             (err := arity_error);
        [reflexivity | reflexivity | reflexivity | reflexivity | exact Hrun].
    + constructor; [reflexivity | exact Hall].
Qed.

(** C3, as stated, fails: when the [event_error] listener cannot be
    scheduled either, the dispatch of [x] never completes, and the listener
    [on_ready] that follows the failing [broken] is never scheduled,
    although scheduling it would succeed. *)
Lemma failing_reporter_blocks_dispatch :
  listeners false (client client_x_broken_reporter) "x" = [broken; on_ready] /\
  create_task rt_arity broken [VData 1] = Some arity_error /\
  create_task rt_arity on_ready [VData 1] = None /\
  (forall fuel,
      fst (handle_event rt_arity fuel x_msg client_x_broken_reporter) = OutOfFuel /\
      ~ In (ATask false "x" on_ready [VData 1])
           (history (snd (handle_event rt_arity fuel x_msg client_x_broken_reporter)))).
Proof.
  split; [reflexivity|]. split; [reflexivity|]. split; [reflexivity|].
  intros [|fuel].
  - split; [reflexivity|]. intros [].
  - destruct (error_dispatch_never_returns fuel
                (VError (set_event arity_error broken))
                [ADispatch "x" (VData 1)]) as (new & Hrun & Hall).
    assert (Hstuck :
      handle_event rt_arity (S fuel) x_msg client_x_broken_reporter =
      (OutOfFuel,
       {| client := client client_x_broken_reporter;
          history := [ADispatch "x" (VData 1)] ++ new |})).
    { apply handle_event_stuck
        with (args := [VData 1]) (h := broken) (rest := [on_ready])
             (err := arity_error);
        [reflexivity | reflexivity | reflexivity | reflexivity | exact Hrun]. }
    rewrite Hstuck. split; [reflexivity|].
    cbn [snd history app]. intros [Hin | Hin]; [discriminate|].
    apply list_elem_of_In in Hin.
    rewrite Forall_forall in Hall. specialize (Hall _ Hin). discriminate.
Qed.

(** ** Event dispatcher: one-shot listeners *)


Section OneShot.

Variable rt : Runtime.
Implicit Types (m : Machine) (new : list Action) (e x : string).

Lemma one_shot_tasks_app e n1 n2 :
  one_shot_tasks e (n1 ++ n2) = one_shot_tasks e n1 ++ one_shot_tasks e n2.
Proof. apply omap_app. Qed.

Lemma listeners_absent c e :
  once_events c !! e = None -> listeners true c e = [].
Proof. unfold listeners. intros ->. reflexivity. Qed.

Lemma Step_refl m : Step m m [].
Proof.
  split.
  - symmetry. apply app_nil_r.
  - intros e. reflexivity.
  - auto.
  - intros e l [].
Qed.

Lemma Step_trans m m1 m2 n1 n2 :
  Step m m1 n1 -> Step m1 m2 n2 -> Step m m2 (n1 ++ n2).
Proof.
  intros [H1 B1 G1 D1] [H2 B2 G2 D2]. split.
  - rewrite H2, H1. symmetry. apply app_assoc.
  - intros e. rewrite one_shot_tasks_app, <- app_assoc.
    etransitivity; [|apply B1]. apply sublist_app; [reflexivity | apply B2].
  - auto.
  - intros e l Hin. apply in_app_or in Hin as [Hin | Hin]; eauto.
Qed.

(** A step that only extends the history by actions that are neither
    one-shot deliveries nor drains. *)
Lemma Step_log m a :
  (forall e, one_shot_tasks e [a] = []) ->
  (forall e l, a <> ADrain e l) ->
  Step m {| client := client m; history := history m ++ [a] |} [a].
Proof.
  intros Ht Hd. split.
  - reflexivity.
  - intros e. rewrite Ht. reflexivity.
  - auto.
  - intros e l [Heq | []]. destruct (Hd e l Heq).
Qed.

Lemma Safe_ret {A} (a : A) : Safe (ret a).
Proof. intros m. exists []. apply Step_refl. Qed.

Lemma Safe_raise {A} (err : Exn) : Safe (@raise A err).
Proof. intros m. exists []. apply Step_refl. Qed.

Lemma Safe_diverge {A} : Safe (@diverge A).
Proof. intros m. exists []. apply Step_refl. Qed.

Lemma Safe_gets {A} (f : Client -> A) : Safe (gets f).
Proof. intros m. exists []. apply Step_refl. Qed.

Lemma Safe_lift {A} (r : Exn + A) : Safe (lift r).
Proof. destruct r; [apply Safe_raise | apply Safe_ret]. Qed.

Lemma Safe_emit a :
  (forall e, one_shot_tasks e [a] = []) ->
  (forall e l, a <> ADrain e l) ->
  Safe (emit a).
Proof. intros Ht Hd m. exists [a]. apply Step_log; assumption. Qed.

Lemma Safe_bind {A B} (c : M A) (k : A -> M B) :
  Safe c -> (forall a, Safe (k a)) -> Safe (bind c k).
Proof.
  intros Hc Hk m. destruct (Hc m) as [n1 S1]. unfold bind.
  destruct (c m) as [[a|err|] m1]; cbn [snd] in *; eauto.
  destruct (Hk a m1) as [n2 S2]. exists (n1 ++ n2).
  eapply Step_trans; eassumption.
Qed.

Lemma Safe_for_each {X} (l : list X) (body : X -> M unit) :
  (forall v, Safe (body v)) -> Safe (for_each l body).
Proof.
  intros Hb. induction l as [|v l IH]; [apply Safe_ret|].
  cbn [for_each]. apply Safe_bind; auto.
Qed.

(** A turn of the persistent loop. *)
Lemma Safe_schedule_persistent k x args coro :
  (forall msg, Safe (k msg)) -> Safe (schedule rt k false x args coro).
Proof.
  intros Hk. unfold schedule. destruct (create_task rt coro args) as [err|].
  - destruct (is_Exception (exn_class err)); [apply Hk | apply Safe_raise].
  - apply Safe_emit; [reflexivity | discriminate].
Qed.

(** The one-shot loop over [l], entered with the key [x] absent from the
    table: the deliveries for [x] are a subsequence of [l]; for every
    other name the run is a step. *)
Lemma one_shot_loop k x args (l : list Handler) m :
  (forall msg, Safe (k msg)) ->
  once_events (client m) !! x = None ->
  exists new,
    history (snd (for_each l (schedule rt k true x args) m)) = history m ++ new /\
    one_shot_tasks x new `sublist_of` l /\
    (forall e, e <> x ->
       one_shot_tasks e new ++
       listeners true (client (snd (for_each l (schedule rt k true x args) m))) e
         `sublist_of` listeners true (client m) e) /\
    (forall e, once_events (client m) !! e = None ->
       once_events (client (snd (for_each l (schedule rt k true x args) m))) !! e
         = None) /\
    (forall e l0, In (ADrain e l0) new ->
       once_events (client (snd (for_each l (schedule rt k true x args) m))) !! e
         = None).
Proof.
  intros Hk. revert m. induction l as [|h l IH]; intros m Hx.
  - exists []. cbn [for_each ret snd]. rewrite app_nil_r.
    split; [reflexivity|]. split; [constructor|].
    split; [intros e _; reflexivity|]. split; [auto|].
    intros e l0 [].
  - cbn [for_each]. unfold bind. unfold schedule in *.
    destruct (create_task rt h args) as [err|].
    + destruct (is_Exception (exn_class err)).
      * (* the nested dispatch *)
        destruct (Hk {| msg_t := "event_error";
                        msg_d := VError (set_event err h) |} m)
          as [n1 [H1 B1 G1 D1]].
        assert (Hnone : one_shot_tasks x n1 = []).
        { pose proof (B1 x) as Hb.
          rewrite (listeners_absent (client m) x Hx) in Hb.
          apply sublist_nil_r in Hb. apply app_eq_nil in Hb. tauto. }
        destruct (k _ m) as [[[]|err'|] m1]; cbn [snd] in *.
        -- destruct (IH m1 (G1 x Hx)) as (n2 & H2 & T2 & B2 & G2 & D2).
           exists (n1 ++ n2). split; [|split; [|split; [|split]]].
           ++ rewrite H2, H1. symmetry. apply app_assoc.
           ++ rewrite one_shot_tasks_app, Hnone. cbn [app].
              apply sublist_cons, T2.
           ++ intros e He. rewrite one_shot_tasks_app, <- app_assoc.
              etransitivity; [|apply B1].
              apply sublist_app; [reflexivity | apply (B2 e He)].
           ++ auto.
           ++ intros e l0 Hin. apply in_app_or in Hin as [Hin | Hin]; eauto.
        -- exists n1. split; [exact H1|].
           split; [rewrite Hnone; apply sublist_nil_l|]. auto.
        -- exists n1. split; [exact H1|].
           split; [rewrite Hnone; apply sublist_nil_l|]. auto.
      * exists []. cbn [raise snd]. rewrite app_nil_r.
        split; [reflexivity|]. split; [apply sublist_nil_l|].
        split; [intros e _; reflexivity|]. split; [auto|].
        intros e l0 [].
    + (* the task is created *)
      unfold emit at 1.
      destruct (IH {| client := client m;
                      history := history m ++ [ATask true x h args] |} Hx)
        as (n2 & H2 & T2 & B2 & G2 & D2).
      cbn [client history] in *.
      exists (ATask true x h args :: n2). split; [|split; [|split; [|split]]].
      * rewrite H2, <- app_assoc. reflexivity.
      * cbn. rewrite String.eqb_refl. apply sublist_skip, T2.
      * intros e He. cbn.
        assert (Hxe : String.eqb x e = false)
          by (apply String.eqb_neq; congruence).
        rewrite Hxe. apply (B2 e He).
      * exact G2.
      * intros e l0 [Heq | Hin]; [discriminate | eauto].
Qed.


Lemma one_shot_phase_eq k x args m :
  one_shot_phase rt k x args m =
  for_each (listeners true (client m) x) (schedule rt k true x args)
    {| client := set_once_events (delete x (once_events (client m))) (client m);
       history := history m ++ [ADrain x (listeners true (client m) x)] |}.
Proof. reflexivity. Qed.

Lemma one_shot_phase_step k x args m :
  (forall msg, Safe (k msg)) ->
  exists new,
    Step m (snd (one_shot_phase rt k x args m)) new /\
    once_events (client (snd (one_shot_phase rt k x args m))) !! x = None.
Proof.
  intros Hk. rewrite one_shot_phase_eq.
  set (m1 := {| client := set_once_events (delete x (once_events (client m)))
                            (client m);
                history := history m ++ [ADrain x (listeners true (client m) x)] |}).
  assert (Hx : once_events (client m1) !! x = None) by apply lookup_delete_eq.
  destruct (one_shot_loop k x args (listeners true (client m) x) m1 Hk Hx)
    as (n2 & H2 & T2 & B2 & G2 & D2).
  exists (ADrain x (listeners true (client m) x) :: n2).
  split; [split|].
  - rewrite H2. unfold m1. cbn [history]. rewrite <- app_assoc. reflexivity.
  - intros e. cbn [one_shot_tasks omap list_omap]. fold (one_shot_tasks e n2).
    destruct (decide (e = x)) as [->|He].
    + rewrite (listeners_absent _ x (G2 x Hx)), app_nil_r. exact T2.
    + etransitivity; [apply (B2 e He)|]. unfold m1. cbn [client].
      rewrite listeners_delete_once_ne by congruence. reflexivity.
  - intros e He. apply G2. unfold m1. cbn [client once_events set_once_events].
    destruct (decide (x = e)) as [->|Hne].
    + apply lookup_delete_eq.
    + rewrite lookup_delete_ne by exact Hne. exact He.
  - intros e l [Heq | Hin]; [|eauto].
    injection Heq as <- _. auto.
  - auto.
Qed.

Lemma Safe_one_shot_phase k x args :
  (forall msg, Safe (k msg)) -> Safe (one_shot_phase rt k x args).
Proof.
  intros Hk m. destruct (one_shot_phase_step k x args m Hk) as [new [HS _]].
  eauto.
Qed.

Lemma handle_event_phases fuel msg :
  handle_event rt (S fuel) msg =
    (emit (ADispatch (lower (msg_t msg)) (msg_d msg)) ;;
     let* args := lift (convert rt (lower (msg_t msg)) (msg_d msg)) in
     let* persistent :=
       gets (fun c => default [] (events c !! lower (msg_t msg))) in
     for_each persistent
       (schedule rt (handle_event rt fuel) false (lower (msg_t msg)) args) ;;
     one_shot_phase rt (handle_event rt fuel) (lower (msg_t msg)) args).
Proof. reflexivity. Qed.

(** Every run of the dispatcher is a step. *)
Lemma Safe_handle_event fuel msg : Safe (handle_event rt fuel msg).
Proof.
  revert msg. induction fuel as [|fuel IH]; intros msg.
  - apply Safe_diverge.
  - rewrite handle_event_phases.
    apply Safe_bind; [apply Safe_emit; [reflexivity | discriminate]|].
    intros _. apply Safe_bind; [apply Safe_lift|]. intros args.
    apply Safe_bind; [apply Safe_gets|]. intros persistent.
    apply Safe_bind.
    + apply Safe_for_each. intros coro.
      apply Safe_schedule_persistent, IH.
    + intros _. apply Safe_one_shot_phase, IH.
Qed.

(** A dispatch that returns has drained its name. *)
Lemma handle_event_done_drains fuel msg m m' :
  handle_event rt fuel msg m = (Done tt, m') ->
  once_events (client m') !! lower (msg_t msg) = None.
Proof.
  destruct fuel as [|fuel]; [discriminate|].
  rewrite handle_event_phases. unfold bind at 1. unfold emit at 1.
  unfold bind at 1. destruct (convert rt _ _) as [err|args];
    [discriminate|]. cbn [lift ret].
  unfold bind at 1. unfold gets at 1. unfold bind at 1.
  destruct (for_each _ _ _) as [[[]|err|] m1]; try discriminate.
  intros Hrun.
  destruct (one_shot_phase_step (handle_event rt fuel) (lower (msg_t msg))
              args m1 (Safe_handle_event fuel)) as [new [_ Hx]].
  rewrite Hrun in Hx. exact Hx.
Qed.

(** Any series of dispatches is a step. *)
Lemma dispatch_all_step runs m :
  exists new, Step m (dispatch_all rt runs m) new.
Proof.
  revert m. induction runs as [|[fuel msg] runs IH]; intros m.
  - exists []. apply Step_refl.
  - cbn [dispatch_all].
    destruct (Safe_handle_event fuel msg m) as [n1 S1].
    destruct (IH (snd (handle_event rt fuel msg m))) as [n2 S2].
    exists (n1 ++ n2). eapply Step_trans; eassumption.
Qed.

End OneShot.

(** C4. From any state of the client and for every name [n]:
    - over any series of dispatches, the one-shot listeners of [n] that are
      delivered form, in order, a subsequence of the one-shot list
      registered under [n]: each registered entry is delivered at most
      once;
    - a dispatch of [n] that reaches its one-shot phase (it returns, or the
      drain of [n] is in its history, whatever happens afterwards) leaves
      no one-shot entry for [n] in the table, and no later series of
      dispatches delivers a one-shot listener for [n]. *)
Theorem one_shot_delivered_at_most_once (rt : Runtime) (n : string) (m : Machine) :
  (forall runs, exists new,
      history (dispatch_all rt runs m) = history m ++ new /\
      one_shot_tasks n new `sublist_of` listeners true (client m) n) /\
  (forall fuel msg,
      lower (msg_t msg) = n ->
      exists new1,
        history (snd (handle_event rt fuel msg m)) = history m ++ new1 /\
        (fst (handle_event rt fuel msg m) = Done tt \/
         (exists l, In (ADrain n l) new1) ->
         once_events (client (snd (handle_event rt fuel msg m))) !! n = None /\
         forall runs, exists new2,
           history (dispatch_all rt runs (snd (handle_event rt fuel msg m))) =
             history (snd (handle_event rt fuel msg m)) ++ new2 /\
           one_shot_tasks n new2 = [])).
Proof.
  split.
  - intros runs. destruct (dispatch_all_step rt runs m) as [new [H B _ _]].
    exists new. split; [exact H|].
    etransitivity; [|apply (B n)]. apply sublist_inserts_r. reflexivity.
  - intros fuel msg Hn.
    destruct (Safe_handle_event rt fuel msg m) as [new1 [H1 B1 G1 D1]].
    exists new1. split; [exact H1|]. intros Hreached.
    assert (Hgone : once_events (client (snd (handle_event rt fuel msg m))) !! n
                    = None).
    { destruct Hreached as [Hdone | [l Hin]]; [|eauto].
      destruct (handle_event rt fuel msg m) as [o m1] eqn:Hrun.
      cbn [fst snd] in *. subst o n.
      exact (handle_event_done_drains rt fuel msg m m1 Hrun). }
    split; [exact Hgone|]. intros runs.
    destruct (dispatch_all_step rt runs (snd (handle_event rt fuel msg m)))
      as [new2 [H2 B2 _ _]].
    exists new2. split; [exact H2|].
    pose proof (B2 n) as Hb. rewrite (listeners_absent _ n Hgone) in Hb.
    apply sublist_nil_r, app_eq_nil in Hb. tauto.
Qed.

Lemma one_shot_delivered_at_most_once_witness :
  exists new1,
    history (snd (handle_event rt_ok 1 x_msg client_x)) = history client_x ++ new1 /\
    (fst (handle_event rt_ok 1 x_msg client_x) = Done tt \/
     (exists l, In (ADrain "x" l) new1) ->
     once_events (client (snd (handle_event rt_ok 1 x_msg client_x))) !! "x" = None /\
     forall runs, exists new2,
       history (dispatch_all rt_ok runs (snd (handle_event rt_ok 1 x_msg client_x))) =
         history (snd (handle_event rt_ok 1 x_msg client_x)) ++ new2 /\
       one_shot_tasks "x" new2 = []).
Proof.
  apply (proj2 (one_shot_delivered_at_most_once rt_ok "x" client_x) 1 x_msg).
  reflexivity.
Defined.

(** Two dispatches of [x] in a row: the one-shot listener is delivered by
    the first and not by the second. *)
Example one_shot_two_dispatches :
  history (dispatch_all rt_ok [(1, x_msg); (1, x_msg)] client_x) =
    [ADispatch "x" (VData 1);
     ATask false "x" broken [VData 1]; ATask false "x" on_ready [VData 1];
     ADrain "x" [on_ready2]; ATask true "x" on_ready2 [VData 1];
     ADispatch "x" (VData 1);
     ATask false "x" broken [VData 1]; ATask false "x" on_ready [VData 1];
     ADrain "x" []].
Proof. reflexivity. Qed.

(** A dispatch that fails in its one-shot phase has drained the name all
    the same: the listener after the failing one is dropped, not kept for a
    later dispatch. *)
Example one_shot_drained_on_failure :
  handle_event rt_cancel 2 y_msg client_y =
    (Raised cancelled,
     {| client := set_once_events ∅ (client client_y);
        history := [ADispatch "y" (VData 2); ADrain "y" [broken; on_ready]] |}) /\
  history (dispatch_all rt_cancel [(2, y_msg); (2, y_msg)] client_y) =
    [ADispatch "y" (VData 2); ADrain "y" [broken; on_ready];
     ADispatch "y" (VData 2); ADrain "y" []].
Proof. split; reflexivity. Qed.


(** * Further properties of the code *)

(** ** [add_listener], [on], [once] *)

Lemma add_listener_done_async (func : Handler) (ev : option string)
    (ow once : bool) (m m1 : Machine) :
  add_listener func ev ow once m = (Done tt, m1) -> h_async func = true.
Proof.
  destruct (h_async func) eqn:Ha; [reflexivity|].
  destruct (add_listener_rejects func ev ow once m Ha) as (e & -> & _).
  discriminate.
Qed.

Lemma listeners_register_other (once once' : bool) (c : Client) (n n' : string)
    (func : Handler) (ow : bool) :
  (once', n') <> (once, n) ->
  listeners once'
    (if once then set_once_events (register (once_events c) n func ow) c
     else set_events (register (events c) n func ow) c) n'
  = listeners once' c n'.
Proof.
  intros Hne. unfold listeners.
  destruct once, once'; cbn; try reflexivity;
    (rewrite register_other; [reflexivity | congruence]).
Qed.

(** X1. A call of [add_listener] on a callable that has a [__name__],
    whatever its outcome, changes nothing but the list stored for its own
    kind under its own key: every other list of either table, the command
    registry, the flags, the session and the history are as before.  Such
    a callable that is not a coroutine function is rejected with
    [TypeError] before anything is stored.  (For a callable without
    [__name__] and no event name the code fails earlier, on
    [func.__name__]; such callables are outside [Handler].) *)
Theorem add_listener_frame (func : Handler) (ev : option string) (ow once : bool)
    (m : Machine) :
  (forall once' n',
      (once', n') <> (once, listener_key func ev) ->
      listeners once' (client (snd (add_listener func ev ow once m))) n'
      = listeners once' (client m) n') /\
  commands (client (snd (add_listener func ev ow once m))) = commands (client m) /\
  closed (client (snd (add_listener func ev ow once m))) = closed (client m) /\
  ws (client (snd (add_listener func ev ow once m))) = ws (client m) /\
  history (snd (add_listener func ev ow once m)) = history m /\
  (h_async func = false ->
   exists e, add_listener func ev ow once m = (Raised e, m) /\
             exn_class e = TypeError).
Proof.
  destruct (h_async func) eqn:Ha.
  - rewrite (add_listener_run func ev ow once m Ha). cbn [snd client history].
    split; [|destruct once; repeat split; discriminate].
    intros once' n' Hne. apply listeners_register_other, Hne.
  - destruct (add_listener_rejects func ev ow once m Ha) as (e & Hrun & Hcls).
    rewrite Hrun. cbn [snd]. repeat split; eauto.
Qed.

Lemma add_listener_frame_witness :
  exists e, add_listener not_async (Some "ready") false false (boot client0)
            = (Raised e, boot client0) /\
            exn_class e = TypeError.
Proof.
  apply (add_listener_frame not_async (Some "ready") false false (boot client0)).
  reflexivity.
Defined.

(** X2. With the event name omitted, or given as the empty string, the
    decorators [on] and [once] store the coroutine function under its own
    name: they return the function, and the list of its kind under
    [func.__name__] is the old list followed by the function, or the
    function alone with [overwrite]. *)
Theorem decorator_default_name (func : Handler) (ev : option string)
    (ow : bool) (m : Machine) :
  h_async func = true ->
  ev = None \/ ev = Some "" ->
  (exists m1, Decorator.on ev ow func m = (Done func, m1) /\
              listeners false (client m1) (h_name func) =
                if ow then [func]
                else listeners false (client m) (h_name func) ++ [func]) /\
  (exists m1, Decorator.once ev ow func m = (Done func, m1) /\
              listeners true (client m1) (h_name func) =
                if ow then [func]
                else listeners true (client m) (h_name func) ++ [func]).
Proof.
  intros Ha Hev.
  assert (Hk : listener_key func ev = h_name func)
    by (destruct Hev as [-> | ->]; reflexivity).
  split.
  - unfold Decorator.on, bind.
    pose proof (listeners_after_add func ev ow false m) as Hl.
    rewrite (add_listener_run func ev ow false m Ha) in *.
    eexists. split; [reflexivity|]. rewrite <- Hk. exact (Hl _ Ha eq_refl).
  - unfold Decorator.once, bind.
    pose proof (listeners_after_add func ev ow true m) as Hl.
    rewrite (add_listener_run func ev ow true m Ha) in *.
    eexists. split; [reflexivity|]. rewrite <- Hk. exact (Hl _ Ha eq_refl).
Qed.

Lemma decorator_default_name_witness :
  (exists m1, Decorator.on (Some "") false on_ready (boot client0)
                = (Done on_ready, m1) /\
              listeners false (client m1) (h_name on_ready) =
                listeners false (client (boot client0)) (h_name on_ready)
                ++ [on_ready]) /\
  (exists m1, Decorator.once (Some "") false on_ready (boot client0)
                = (Done on_ready, m1) /\
              listeners true (client m1) (h_name on_ready) =
                listeners true (client (boot client0)) (h_name on_ready)
                ++ [on_ready]).
Proof.
  apply (decorator_default_name on_ready (Some "") false (boot client0)).
  - reflexivity.
  - right. reflexivity.
Defined.

(** X3. Registration followed by dispatch: once [add_listener] has stored a
    function under a key, a dispatch of an envelope whose type is ASCII
    text and lower-cases to that key (payload converts, no task creation
    raises) returns and creates a task for the function with the converted
    arguments, as the last of the listeners of its kind. *)
Theorem registered_listener_is_scheduled (rt : Runtime) (fuel : nat)
    (m m1 : Machine) (func : Handler) (ev : option string) (ow once : bool)
    (ty : string) (payload : Value) (args : list Value) :
  add_listener func ev ow once m = (Done tt, m1) ->
  is_ascii ty = true ->
  lower ty = listener_key func ev ->
  convert rt (listener_key func ev) payload = inr args ->
  Forall (fun h => create_task rt h args = None)
         (listeners false (client m1) (listener_key func ev) ++
          listeners true (client m1) (listener_key func ev)) ->
  exists m2 earlier,
    handle_event rt (S fuel) {| msg_t := ty; msg_d := payload |} m1
      = (Done tt, m2) /\
    history m2 =
      history m1 ++ quiet_dispatch (client m1) (listener_key func ev) payload args /\
    listeners once (client m1) (listener_key func ev) = earlier ++ [func] /\
    In (ATask once (listener_key func ev) func args)
       (quiet_dispatch (client m1) (listener_key func ev) payload args).
Proof.
  intros Hadd _ Hty Hconv Hall.
  pose proof (add_listener_done_async _ _ _ _ _ _ Hadd) as Ha.
  pose proof (listeners_after_add func ev ow once m m1 Ha Hadd) as Hl.
  rewrite <- Hty in *.
  pose proof (runs_quiet_dispatch rt fuel m1 ty payload args Hconv Hall) as Hrun.
  exists {| client := set_once_events (delete (lower ty) (once_events (client m1)))
                        (client m1);
            history := history m1 ++
                       quiet_dispatch (client m1) (lower ty) payload args |},
         (if ow then [] else listeners once (client m) (lower ty)).
  split; [exact Hrun|]. split; [reflexivity|].
  split; [destruct ow; exact Hl|].
  assert (Hin : In func (listeners once (client m1) (lower ty))).
  { rewrite Hl. destruct ow; [left; reflexivity|].
    apply in_or_app. right. left. reflexivity. }
  unfold quiet_dispatch, tasks. rewrite !in_app_iff.
  destruct once.
  - right. right. right.
    apply (in_map (fun h => ATask true (lower ty) h args)), Hin.
  - right. left.
    apply (in_map (fun h => ATask false (lower ty) h args)), Hin.
Qed.

Lemma registered_listener_is_scheduled_witness :
  exists m2 earlier,
    handle_event rt_ok 1 ready_msg
      (snd (add_listener on_ready (Some "ready") false true (boot client0)))
      = (Done tt, m2) /\
    history m2 =
      history (snd (add_listener on_ready (Some "ready") false true (boot client0)))
      ++ quiet_dispatch
           (client (snd (add_listener on_ready (Some "ready") false true
                           (boot client0))))
           (listener_key on_ready (Some "ready")) (VData 1) [VData 1] /\
    listeners true
      (client (snd (add_listener on_ready (Some "ready") false true (boot client0))))
      (listener_key on_ready (Some "ready")) = earlier ++ [on_ready] /\
    In (ATask true (listener_key on_ready (Some "ready")) on_ready [VData 1])
       (quiet_dispatch
          (client (snd (add_listener on_ready (Some "ready") false true
                          (boot client0))))
          (listener_key on_ready (Some "ready")) (VData 1) [VData 1]).
Proof.
  apply (registered_listener_is_scheduled rt_ok 0 (boot client0)
           (snd (add_listener on_ready (Some "ready") false true (boot client0)))
           on_ready (Some "ready") false true "READY" (VData 1) [VData 1]).
  - reflexivity.
  - reflexivity.
  - reflexivity.
  - reflexivity.
  - repeat constructor.
Defined.

(** ** [add_command], [remove_command], [get_command_named] *)

Lemma has_command_false n (items : list (string * Command.t)) :
  has_command n items = false <-> ~ In n (map fst items).
Proof.
  induction items as [|[k c] items IH]; cbn.
  - tauto.
  - destruct (String.eqb_spec k n) as [->|Hne]; cbn.
    + split; [discriminate | intros H; destruct H; auto].
    + rewrite IH. tauto.
Qed.

Lemma remove_key_cons n k c (items : list (string * Command.t)) :
  remove_key n ((k, c) :: items) =
  if String.eqb k n then remove_key n items else (k, c) :: remove_key n items.
Proof.
  unfold remove_key. rewrite filter_cons. cbn [fst].
  destruct (String.eqb k n); cbn [negb];
    destruct (decide _) as [H|H]; try reflexivity.
  - destruct H.
  - destruct H. exact I.
Qed.

Lemma remove_key_absent n (items : list (string * Command.t)) :
  has_command n items = false -> remove_key n items = items.
Proof.
  induction items as [|[k c] items IH]; [reflexivity|].
  cbn [has_command existsb fst]. rewrite remove_key_cons.
  destruct (String.eqb k n); cbn [orb]; [discriminate|].
  intros H. f_equal. apply IH, H.
Qed.

Lemma remove_key_fresh n c (items : list (string * Command.t)) :
  has_command n items = false -> remove_key n (items ++ [(n, c)]) = items.
Proof.
  intros H. induction items as [|[k c'] items IH].
  - cbn [app]. rewrite remove_key_cons, String.eqb_refl. reflexivity.
  - cbn [has_command existsb fst] in H. cbn [app]. rewrite remove_key_cons.
    destruct (String.eqb k n); cbn [orb] in H; [discriminate|].
    f_equal. apply IH, H.
Qed.



Lemma In_remove_key n kc (items : list (string * Command.t)) :
  In kc (remove_key n items) -> In kc items.
Proof.
  induction items as [|[k c] items IH]; [auto|].
  rewrite remove_key_cons. destruct (String.eqb k n); cbn; intuition.
Qed.

Lemma registry_ok_remove n (items : list (string * Command.t)) :
  registry_ok items -> registry_ok (remove_key n items).
Proof.
  intros [Hnd Hnames]. induction items as [|[k c] items IH].
  - split; constructor.
  - apply NoDup_cons in Hnd as [Hk Hnd]. apply Forall_cons in Hnames as [Hn Hnames].
    destruct (IH Hnd Hnames) as [IH1 IH2].
    rewrite remove_key_cons. destruct (String.eqb k n); [split; assumption|].
    split.
    + cbn [map fst]. apply NoDup_cons. split; [|exact IH1].
      intros Hin. apply Hk. apply list_elem_of_In. apply list_elem_of_In in Hin.
      apply in_map_iff in Hin as (kc & Hfst & Hin).
      apply in_map_iff. exists kc. split; [exact Hfst|].
      eapply In_remove_key, Hin.
    + apply Forall_cons. split; assumption.
Qed.

Lemma registry_ok_add c (items : list (string * Command.t)) :
  registry_ok items ->
  has_command (Command.name c) items = false ->
  registry_ok (items ++ [(Command.name c, c)]).
Proof.
  intros [Hnd Hnames] Hfresh. apply has_command_false in Hfresh. split.
  - rewrite map_app. apply NoDup_app. split; [exact Hnd|]. split.
    + intros x Hx Hk. cbn [map fst] in Hk.
      apply list_elem_of_singleton in Hk. subst x.
      apply Hfresh, list_elem_of_In, Hx.
    + cbn [map fst]. apply NoDup_singleton.
  - apply Forall_app. split; [exact Hnames|]. repeat constructor.
Qed.

Lemma set_commands_same (c : Client) : set_commands (commands c) c = c.
Proof. destruct c; reflexivity. Qed.

(** X4. The command registry stays a well-formed dictionary: it starts
    with at most the help command, and [add_command] and [remove_command],
    whatever their outcome, keep every key unique and every command stored
    under its own name. *)
Theorem registry_invariant :
  (forall prefix i help resp, registry_ok (commands (init prefix i help resp))) /\
  (forall c m,
      registry_ok (commands (client m)) ->
      registry_ok (commands (client (snd (add_command c m))))) /\
  (forall c m,
      registry_ok (commands (client m)) ->
      registry_ok (commands (client (snd (remove_command c m))))).
Proof.
  split; [|split].
  - intros prefix i [h|] resp; cbn [init commands map fst]; split.
    + apply NoDup_singleton.
    + repeat constructor.
    + constructor.
    + constructor.
  - intros c m Hok.
    destruct (has_command (Command.name c) (commands (client m))) eqn:E.
    + rewrite (add_command_rejects m c E). exact Hok.
    + rewrite (add_command_fresh c m E). cbn [snd client commands set_commands].
      apply registry_ok_add; assumption.
  - intros c m Hok. unfold remove_command, bind, gets. cbn [client].
    destruct (lookup_command (Command.name c) (commands (client m))); cbn.
    + apply registry_ok_remove, Hok.
    + exact Hok.
Qed.

Lemma registry_invariant_witness :
  registry_ok (commands (client (snd (add_command cmd_echo (boot client0))))).
Proof.
  apply (proj1 (proj2 registry_invariant) cmd_echo (boot client0)).
  apply (proj1 registry_invariant).
Defined.

(** X5. Registering a command under a name that is free and removing it
    again returns that command and leaves the client exactly as it
    was. *)
Theorem add_then_remove_command (c : Command.t) (m : Machine) :
  has_command (Command.name c) (commands (client m)) = false ->
  (add_command c ;; remove_command c) m = (Done c, m).
Proof.
  intros Hfresh. unfold bind at 1. rewrite (add_command_fresh c m Hfresh).
  unfold remove_command, bind, gets, modify, ret. cbn [client commands set_commands].
  rewrite (lookup_command_fresh _ c _ Hfresh), (remove_key_fresh _ c _ Hfresh).
  cbn. destruct m as [cl h]. cbn. f_equal. f_equal. destruct cl; reflexivity.
Qed.

Lemma add_then_remove_command_witness :
  (add_command cmd_ping ;; remove_command cmd_ping) (boot client_shadowed)
  = (Done cmd_ping, boot client_shadowed).
Proof.
  apply (add_then_remove_command cmd_ping (boot client_shadowed)). reflexivity.
Defined.



Lemma find_command_plain_only (items : list (string * Command.t)) (n : string) :
  plain_only items -> find_command items n = lookup_command n items.
Proof.
  induction 1 as [|[k c] items Hc _ IH]; [reflexivity|].
  cbn [find_command lookup_command]. cbn [snd] in Hc. rewrite Hc, IH.
  reflexivity.
Qed.

(** X7. In a registry without pattern commands [get_command_named] is the
    exact lookup of the name, and so agrees with the two-tier resolution
    (exact key first, patterns on a miss). *)
Theorem get_command_named_plain_registry (c : Client) (n : string) :
  plain_only (commands c) ->
  get_command_named c n = lookup_command n (commands c) /\
  get_command_named c n = spec_resolve c n.
Proof.
  intros Hplain. unfold get_command_named, spec_resolve.
  rewrite (find_command_plain_only _ n Hplain). split; [reflexivity|].
  destruct (lookup_command n (commands c)); [reflexivity|].
  replace (find _ (commands c)) with (@None (string * Command.t));
    [reflexivity|].
  symmetry. induction Hplain as [|[k cmd] items Hc _ IH]; [reflexivity|].
  cbn [find snd]. cbn [snd] in Hc. rewrite Hc. cbn [andb]. exact IH.
Qed.

Lemma get_command_named_plain_registry_witness :
  get_command_named (client (snd (add_command cmd_echo (boot client0)))) "echo"
  = lookup_command "echo"
      (commands (client (snd (add_command cmd_echo (boot client0))))) /\
  get_command_named (client (snd (add_command cmd_echo (boot client0)))) "echo"
  = spec_resolve (client (snd (add_command cmd_echo (boot client0)))) "echo".
Proof.
  apply (get_command_named_plain_registry
           (client (snd (add_command cmd_echo (boot client0)))) "echo").
  repeat constructor.
Defined.

(** X8. Registration followed by resolution: after [add_command] has
    registered a plain command, [get_command_named] returns it for its
    name, provided no pattern command registered before it accepts that
    name. *)
Theorem add_command_then_resolve (c r : Command.t) (m m1 : Machine) :
  add_command c m = (Done r, m1) ->
  Command.is_regex_command c = false ->
  Forall (fun kc => Command.is_regex_command (snd kc) = true ->
                    accepts (Command.name c) kc = false)
         (commands (client m)) ->
  get_command_named (client m1) (Command.name c) = Some c.
Proof.
  intros Hadd Hplain Hpat.
  destruct (has_command (Command.name c) (commands (client m))) eqn:Hfresh.
  { rewrite (add_command_rejects m c Hfresh) in Hadd. discriminate. }
  rewrite (add_command_fresh c m Hfresh) in Hadd. injection Hadd as _ <-.
  unfold get_command_named. cbn [client commands set_commands].
  apply find_command_exact; [exact Hplain|].
  apply has_command_false in Hfresh.
  apply Forall_forall. intros [k cmd] Hin.
  rewrite Forall_forall in Hpat. specialize (Hpat _ Hin).
  unfold accepts in *. cbn [fst snd] in *.
  destruct (Command.is_regex_command cmd); [auto|].
  apply String.eqb_neq. intros ->. apply Hfresh.
  apply list_elem_of_In in Hin. apply in_map_iff. exists (Command.name c, cmd).
  auto.
Qed.

Lemma add_command_then_resolve_witness :
  get_command_named (client (snd (add_command cmd_ping (boot client_shadowed))))
    (Command.name cmd_ping) = Some cmd_ping.
Proof.
  apply (add_command_then_resolve cmd_ping cmd_ping (boot client_shadowed)
           (snd (add_command cmd_ping (boot client_shadowed)))).
  - reflexivity.
  - reflexivity.
  - repeat constructor.
Defined.


(** ** [handle_event]: edge cases and what it leaves alone *)

Lemma bind_after_runs {A B} (c : M A) (k : A -> M B) (m : Machine) (a : A)
    (new : list Action) (c' : Client) :
  runs c m a new c' ->
  bind c k m = k a {| client := c'; history := history m ++ new |}.
Proof. unfold runs, bind. intros ->. reflexivity. Qed.

Lemma set_once_events_same (c : Client) : set_once_events (once_events c) c = c.
Proof. destruct c; reflexivity. Qed.



(** X10. A payload that the converter rejects ends the dispatch with the
    converter's error before any listener is looked at: no task is
    created and the one-shot listeners of the event stay registered, so
    the next dispatch of the event (payload converts, no task creation
    raises) delivers them. *)
Theorem conversion_error_consumes_nothing (rt : Runtime) (f1 f2 : nat)
    (m : Machine) (ty : string) (bad good : Value) (e : Exn)
    (args : list Value) :
  convert rt (lower ty) bad = inl e ->
  convert rt (lower ty) good = inr args ->
  Forall (fun h => create_task rt h args = None)
         (listeners false (client m) (lower ty) ++
          listeners true (client m) (lower ty)) ->
  handle_event rt (S f1) {| msg_t := ty; msg_d := bad |} m =
    (Raised e,
     {| client := client m;
        history := history m ++ [ADispatch (lower ty) bad] |}) /\
  history (dispatch_all rt [(S f1, {| msg_t := ty; msg_d := bad |});
                            (S f2, {| msg_t := ty; msg_d := good |})] m) =
    history m ++ [ADispatch (lower ty) bad] ++
    quiet_dispatch (client m) (lower ty) good args.
Proof.
  intros Hbad Hgood Hall.
  assert (H1 : handle_event rt (S f1) {| msg_t := ty; msg_d := bad |} m =
               (Raised e,
                {| client := client m;
                   history := history m ++ [ADispatch (lower ty) bad] |})).
  { rewrite handle_event_S. cbn [msg_t msg_d].
    rewrite (bind_after_runs _ _ _ _ _ _ (runs_emit _ m)).
    unfold bind. rewrite Hbad. reflexivity. }
  split; [exact H1|].
  cbn [dispatch_all]. rewrite H1. cbn [snd].
  rewrite (runs_quiet_dispatch rt f2
             {| client := client m;
                history := history m ++ [ADispatch (lower ty) bad] |}
             ty good args Hgood Hall).
  cbn [snd history client]. rewrite <- app_assoc. reflexivity.
Qed.

Lemma conversion_error_consumes_nothing_witness :
  handle_event rt_strict 1 {| msg_t := "X"; msg_d := VData 0 |} client_x =
    (Raised conversion_error,
     {| client := client client_x;
        history := history client_x ++ [ADispatch (lower "X") (VData 0)] |}) /\
  history (dispatch_all rt_strict [(1, {| msg_t := "X"; msg_d := VData 0 |});
                                   (1, {| msg_t := "X"; msg_d := VData 1 |})]
             client_x) =
    history client_x ++ [ADispatch (lower "X") (VData 0)] ++
    quiet_dispatch (client client_x) (lower "X") (VData 1) [VData 1].
Proof.
  apply (conversion_error_consumes_nothing rt_strict 0 0 client_x "X"
           (VData 0) (VData 1) conversion_error [VData 1]).
  - reflexivity.
  - reflexivity.
  - repeat constructor.
Defined.

(** X11. An error raised while a persistent listener is scheduled that is
    not an [Exception] is not caught: the dispatch ends with that error as
    it is (no [event] attribute is set), no [event_error] envelope is
    dispatched, the listeners after the failing one are not scheduled and
    the one-shot listeners are not drained. *)
Theorem base_exception_aborts_dispatch (rt : Runtime) (fuel : nat) (m : Machine)
    (ty : string) (payload : Value) (args : list Value)
    (pre post : list Handler) (h : Handler) (err : Exn) :
  convert rt (lower ty) payload = inr args ->
  listeners false (client m) (lower ty) = pre ++ h :: post ->
  Forall (fun g => create_task rt g args = None) pre ->
  create_task rt h args = Some err ->
  is_Exception (exn_class err) = false ->
  handle_event rt (S fuel) {| msg_t := ty; msg_d := payload |} m =
    (Raised err,
     {| client := client m;
        history := history m ++
                   ADispatch (lower ty) payload :: tasks false (lower ty) args pre |}).
Proof.
  intros Hconv Hl Hpre Hfail Hbase.
  rewrite handle_event_S. cbn [msg_t msg_d].
  rewrite (bind_after_runs _ _ _ _ _ _ (runs_emit _ m)).
  rewrite (bind_after_runs _ _ _ _ _ _ (runs_lift _ _ _ Hconv)).
  rewrite (bind_after_runs _ _ _ _ _ _ (runs_gets _ _)).
  cbn [client history].
  change (default [] (events (client m) !! lower ty))
    with (listeners false (client m) (lower ty)).
  rewrite Hl. unfold bind at 1. rewrite for_each_app.
  rewrite (bind_after_runs _ _ _ _ _ _
             (runs_all_scheduled rt _ false (lower ty) args pre _ Hpre)).
  cbn [for_each client history]. unfold bind at 1. unfold schedule at 1.
  rewrite Hfail, Hbase. unfold raise. rewrite !app_nil_r, <- app_assoc.
  reflexivity.
Qed.

Lemma base_exception_aborts_dispatch_witness :
  handle_event rt_cancel 1 {| msg_t := "X"; msg_d := VData 1 |} client_x =
    (Raised cancelled,
     {| client := client client_x;
        history := history client_x ++
                   ADispatch (lower "X") (VData 1)
                   :: tasks false (lower "X") [VData 1] [] |}).
Proof.
  apply (base_exception_aborts_dispatch rt_cancel 0 client_x "X" (VData 1)
           [VData 1] [] [on_ready] broken cancelled).
  - reflexivity.
  - reflexivity.
  - constructor.
  - reflexivity.
  - reflexivity.
Defined.


Section Frame.

Variable rt : Runtime.

Lemma only_drains_refl c : only_drains c c.
Proof. exists (once_events c). split; [reflexivity|]. symmetry. apply set_once_events_same. Qed.

Lemma only_drains_trans c1 c2 c3 :
  only_drains c1 c2 -> only_drains c2 c3 -> only_drains c1 c3.
Proof.
  intros (t1 & H1 & ->) (t2 & H2 & ->). exists t2.
  split; [etransitivity; eassumption | reflexivity].
Qed.

Lemma Draining_ret {A} (a : A) : Draining (ret a).
Proof. intros m. apply only_drains_refl. Qed.

Lemma Draining_raise {A} (e : Exn) : Draining (@raise A e).
Proof. intros m. apply only_drains_refl. Qed.

Lemma Draining_emit a : Draining (emit a).
Proof. intros m. apply only_drains_refl. Qed.

Lemma Draining_gets {A} (f : Client -> A) : Draining (gets f).
Proof. intros m. apply only_drains_refl. Qed.

Lemma Draining_lift {A} (r : Exn + A) : Draining (lift r).
Proof. destruct r; [apply Draining_raise | apply Draining_ret]. Qed.

Lemma Draining_bind {A B} (c : M A) (k : A -> M B) :
  Draining c -> (forall a, Draining (k a)) -> Draining (bind c k).
Proof.
  intros Hc Hk m. specialize (Hc m). unfold bind.
  destruct (c m) as [[a|e|] m1]; cbn [snd] in *; try exact Hc.
  eapply only_drains_trans; [exact Hc | apply Hk].
Qed.

Lemma Draining_for_each {X} (l : list X) (body : X -> M unit) :
  (forall v, Draining (body v)) -> Draining (for_each l body).
Proof.
  intros Hb. induction l as [|v l IH]; [apply Draining_ret|].
  cbn [for_each]. apply Draining_bind; auto.
Qed.

Lemma Draining_schedule k once x args coro :
  (forall msg, Draining (k msg)) -> Draining (schedule rt k once x args coro).
Proof.
  intros Hk. unfold schedule. destruct (create_task rt coro args) as [err|].
  - destruct (is_Exception (exn_class err)); [apply Hk | apply Draining_raise].
  - apply Draining_emit.
Qed.

Lemma Draining_pop_once x : Draining (pop_once x).
Proof.
  intros m. exists (delete x (once_events (client m))).
  split; [apply delete_subseteq | reflexivity].
Qed.

Lemma Draining_handle_event fuel msg : Draining (handle_event rt fuel msg).
Proof.
  revert msg. induction fuel as [|fuel IH]; intros msg.
  - intros m. apply only_drains_refl.
  - rewrite handle_event_S.
    apply Draining_bind; [apply Draining_emit|]. intros _.
    apply Draining_bind; [apply Draining_lift|]. intros args.
    apply Draining_bind; [apply Draining_gets|]. intros persistent.
    apply Draining_bind.
    + apply Draining_for_each. intros coro. apply Draining_schedule, IH.
    + intros _. apply Draining_bind; [apply Draining_pop_once|].
      intros drained. apply Draining_for_each. intros coro.
      apply Draining_schedule, IH.
Qed.

End Frame.

(** X12. Whatever the outcome of a dispatch (returned, raised, unfinished),
    [handle_event] only ever removes entries of the one-shot table: the
    persistent listeners, the command registry, the closed flag, the token
    and the session are as before, and no one-shot entry is added or
    altered. *)
Theorem handle_event_frame (rt : Runtime) (fuel : nat) (msg : Envelope)
    (m : Machine) :
  events (client (snd (handle_event rt fuel msg m))) = events (client m) /\
  commands (client (snd (handle_event rt fuel msg m))) = commands (client m) /\
  closed (client (snd (handle_event rt fuel msg m))) = closed (client m) /\
  token (client (snd (handle_event rt fuel msg m))) = token (client m) /\
  ws (client (snd (handle_event rt fuel msg m))) = ws (client m) /\
  once_events (client (snd (handle_event rt fuel msg m))) ⊆ once_events (client m).
Proof.
  destruct (Draining_handle_event rt fuel msg m) as (tbl & Hsub & ->).
  repeat split. exact Hsub.
Qed.

(** ** [handle_event]: any number of failing listeners *)

Section EveryFailure.

Variable rt : Runtime.

Lemma x_tasks_app x n1 n2 : x_tasks x (n1 ++ n2) = x_tasks x n1 ++ x_tasks x n2.
Proof. apply omap_app. Qed.

Lemma reports_app n1 n2 : reports (n1 ++ n2) = reports n1 ++ reports n2.
Proof. apply omap_app. Qed.

Lemma x_tasks_tasks_ne x o e args hs :
  e <> x -> x_tasks x (tasks o e args hs) = [].
Proof.
  intros Hne. apply String.eqb_neq in Hne.
  induction hs as [|h hs IH]; [reflexivity|].
  cbn. rewrite Hne. exact IH.
Qed.

Lemma reports_tasks o e args hs : reports (tasks o e args hs) = [].
Proof. induction hs as [|h hs IH]; [reflexivity | exact IH]. Qed.

Lemma x_tasks_quiet_ne x c e p args :
  e <> x -> x_tasks x (quiet_dispatch c e p args) = [].
Proof.
  intros Hne. unfold quiet_dispatch.
  rewrite !x_tasks_app, !(x_tasks_tasks_ne x _ e _ _ Hne). reflexivity.
Qed.

Lemma reports_quiet_error c p args :
  reports (quiet_dispatch c "event_error" p args) = [p].
Proof.
  unfold quiet_dispatch. rewrite !reports_app, !reports_tasks. reflexivity.
Qed.

Lemma listeners_after_report_ne o c x :
  x <> "event_error" -> listeners o (after_report c) x = listeners o c x.
Proof. intros Hne. apply listeners_delete_once_ne. congruence. Qed.

Lemma after_report_idem c : after_report (after_report c) = after_report c.
Proof.
  unfold after_report. destruct c. cbn. rewrite delete_delete_eq. reflexivity.
Qed.

Lemma healthy_after_report c :
  healthy_reporters rt c -> healthy_reporters rt (after_report c).
Proof.
  intros H g eargs Hin. apply (H g eargs).
  apply in_app_or in Hin as [Hin | Hin]; apply in_or_app; [left; exact Hin|].
  unfold listeners, after_report in Hin. cbn in Hin.
  rewrite lookup_delete_eq in Hin. destruct Hin.
Qed.

Lemma healthy_after_drain c x :
  x <> "event_error" ->
  healthy_reporters rt c ->
  healthy_reporters rt (set_once_events (delete x (once_events c)) c).
Proof.
  intros Hne H g eargs Hin. apply (H g eargs).
  rewrite !(listeners_delete_once_ne _ c x "event_error" Hne) in Hin.
  exact Hin.
Qed.

(** Either loop of [handle_event], over any list of listeners: each is
    scheduled or reported, and the loop returns. *)
Lemma runs_isolating_loop fuel once x args (l : list Handler) m :
  x <> "event_error" ->
  healthy_reporters rt (client m) ->
  (forall err, exists eargs, convert rt "event_error" (VError err) = inr eargs) ->
  Forall (fun h => forall err, create_task rt h args = Some err ->
                               is_Exception (exn_class err) = true) l ->
  exists new c',
    runs (for_each l (schedule rt (handle_event rt (S fuel)) once x args))
         m tt new c' /\
    (c' = client m \/ c' = after_report (client m)) /\
    x_tasks x new = omap (scheduled_of rt args once) l /\
    reports new = omap (report_of rt args) l.
Proof.
  intros Hx Hh Hconv Hexc. revert m Hh.
  induction Hexc as [|h l Hhexc _ IH]; intros m Hh.
  - exists [], (client m). split; [apply runs_ret|]. auto.
  - cbn [for_each omap list_omap]. unfold scheduled_of at 1, report_of at 1.
    destruct (create_task rt h args) as [err|] eqn:Htask.
    + (* reported *)
      specialize (Hhexc err eq_refl).
      destruct (Hconv (set_event err h)) as [eargs Hecv].
      assert (Hall : Forall (fun g => create_task rt g eargs = None)
                       (listeners false (client m) "event_error" ++
                        listeners true (client m) "event_error")).
      { apply Forall_forall. intros g Hg. apply Hh.
        apply list_elem_of_In, Hg. }
      pose proof (runs_schedule_failure rt fuel m once x args h err eargs
                    Htask Hhexc Hecv Hall) as Hrun1.
      fold (after_report (client m)) in Hrun1.
      destruct (IH {| client := after_report (client m);
                      history := history m ++
                        quiet_dispatch (client m) "event_error"
                          (VError (set_event err h)) eargs |}
                  (healthy_after_report _ Hh))
        as (new & c' & Hrun & Hc' & Ht & Hr).
      cbn [client] in Hc'. rewrite after_report_idem in Hc'.
      eexists _, c'. split; [exact (runs_bind _ _ _ _ _ _ _ _ _ Hrun1 Hrun)|].
      split; [right; destruct Hc'; assumption|].
      rewrite x_tasks_app, reports_app, reports_quiet_error.
      rewrite x_tasks_quiet_ne by congruence.
      cbn [app]. rewrite Ht, Hr. auto.
    + (* scheduled *)
      assert (Hrun1 : runs (schedule rt (handle_event rt (S fuel)) once x args h)
                        m tt [ATask once x h args] (client m)).
      { unfold schedule. rewrite Htask. apply runs_emit. }
      destruct (IH {| client := client m;
                      history := history m ++ [ATask once x h args] |} Hh)
        as (new & c' & Hrun & Hc' & Ht & Hr).
      eexists _, c'. split; [exact (runs_bind _ _ _ _ _ _ _ _ _ Hrun1 Hrun)|].
      split; [exact Hc'|].
      rewrite x_tasks_app, reports_app, Ht, Hr.
      cbn. rewrite String.eqb_refl. auto.
Qed.

End EveryFailure.

(** X13. Failure isolation for a whole dispatch.  Let [x] be an event other
    than [event_error] whose payload converts, and suppose that whatever
    the listeners of [x] raise while they are scheduled is an [Exception],
    that the converter accepts every error payload and that every
    [event_error] listener can be scheduled.  Then the dispatch returns,
    however many listeners of [x] fail: every listener that can be
    scheduled gets its task, persistent before one-shot and in
    registration order, every failing listener is reported by exactly one
    [event_error] envelope carrying its error with [event] set to it, in
    the same order, and the one-shot entry of [x] is gone. *)
Theorem handle_event_isolates_every_failure (rt : Runtime) (fuel : nat)
    (m : Machine) (ty x : string) (payload : Value) (args : list Value) :
  lower ty = x ->
  x <> "event_error" ->
  convert rt x payload = inr args ->
  healthy_reporters rt (client m) ->
  (forall err, exists eargs, convert rt "event_error" (VError err) = inr eargs) ->
  Forall (fun h => forall err, create_task rt h args = Some err ->
                               is_Exception (exn_class err) = true)
         (listeners false (client m) x ++ listeners true (client m) x) ->
  exists m' new,
    handle_event rt (S (S fuel)) {| msg_t := ty; msg_d := payload |} m
      = (Done tt, m') /\
    history m' = history m ++ new /\
    x_tasks x new =
      omap (scheduled_of rt args false) (listeners false (client m) x) ++
      omap (scheduled_of rt args true) (listeners true (client m) x) /\
    reports new =
      omap (report_of rt args)
           (listeners false (client m) x ++ listeners true (client m) x) /\
    once_events (client m') !! x = None.
Proof.
  intros Hty Hx Hconv Hh Hecv Hexc. apply Forall_app in Hexc as [Hexc1 Hexc2].
  assert (Hxne : "event_error" <> x) by congruence.
  destruct (runs_isolating_loop rt fuel false x args
              (listeners false (client m) x)
              {| client := client m;
                 history := ((history m ++ [ADispatch x payload]) ++ []) ++ [] |}
              Hx Hh Hecv Hexc1)
    as (new1 & c1 & Hrun1 & Hc1 & Ht1 & Hr1).
  cbn [client history] in Hrun1, Hc1.
  assert (Hh1 : healthy_reporters rt c1)
    by (destruct Hc1 as [-> | ->]; auto using healthy_after_report).
  assert (Hl1 : listeners true c1 x = listeners true (client m) x)
    by (destruct Hc1 as [-> | ->];
        [reflexivity | apply listeners_after_report_ne, Hx]).
  rewrite <- Hl1 in Hexc2.
  destruct (runs_isolating_loop rt fuel true x args
              (listeners true c1 x)
              {| client := set_once_events (delete x (once_events c1)) c1;
                 history := ((((history m ++ [ADispatch x payload]) ++ []) ++ [])
                             ++ new1) ++ [ADrain x (listeners true c1 x)] |}
              Hx (healthy_after_drain rt c1 x Hx Hh1) Hecv Hexc2)
    as (new2 & c2 & Hrun2 & Hc2 & Ht2 & Hr2).
  cbn [client history] in Hrun2, Hc2. rewrite Hl1 in Ht2, Hr2.
  assert (Hrun : runs (handle_event rt (S (S fuel))
                         {| msg_t := ty; msg_d := payload |}) m tt
                   ([ADispatch x payload] ++ [] ++ [] ++ new1 ++
                    [ADrain x (listeners true c1 x)] ++ new2) c2).
  { rewrite handle_event_S. cbn [msg_t msg_d]. rewrite Hty.
    eapply runs_bind; [apply runs_emit|].
    eapply runs_bind; [apply runs_lift, Hconv|].
    eapply runs_bind; [apply runs_gets|]. cbn [client history].
    eapply runs_bind; [exact Hrun1|].
    eapply runs_bind; [apply runs_pop_once|]. cbn [client history].
    exact Hrun2. }
  eexists _, _. split; [exact Hrun|]. cbn [history].
  split; [reflexivity|].
  assert (Hd : String.eqb x "event_error" = false) by (apply String.eqb_neq, Hx).
  split; [|split].
  - rewrite !x_tasks_app, Ht1, Ht2. reflexivity.
  - rewrite !reports_app, Hr1, Hr2, omap_app. cbn. rewrite Hd.
    cbn. reflexivity.
  - destruct Hc2 as [-> | ->]; cbn.
    + apply lookup_delete_eq.
    + rewrite lookup_delete_ne by exact Hxne. apply lookup_delete_eq.
Qed.

Lemma handle_event_isolates_every_failure_witness :
  exists m' new,
    handle_event rt_arity 2 {| msg_t := "X"; msg_d := VData 1 |} client_x
      = (Done tt, m') /\
    history m' = history client_x ++ new /\
    x_tasks "x" new =
      omap (scheduled_of rt_arity [VData 1] false)
           (listeners false (client client_x) "x") ++
      omap (scheduled_of rt_arity [VData 1] true)
           (listeners true (client client_x) "x") /\
    reports new =
      omap (report_of rt_arity [VData 1])
           (listeners false (client client_x) "x" ++
            listeners true (client client_x) "x") /\
    once_events (client m') !! "x" = None.
Proof.
  apply (handle_event_isolates_every_failure rt_arity 0 client_x "X" "x"
           (VData 1) [VData 1]).
  - reflexivity.
  - discriminate.
  - reflexivity.
  - intros g eargs [<- | []]. reflexivity.
  - intros err. eexists. reflexivity.
  - repeat constructor; cbn; intros err [= <-]; reflexivity.
Defined.


(** ** [process_commands] on messages of human accounts *)

Lemma merge_kwargs_disjoint (kwargs extra_kwargs : Kwargs) :
  (forall k, In k (map fst extra_kwargs) -> ~ In k (map fst kwargs)) ->
  merge_kwargs kwargs extra_kwargs = inr (kwargs ++ extra_kwargs).
Proof.
  intros Hdis. unfold merge_kwargs.
  destruct (find _ extra_kwargs) as [kv|] eqn:Hfind; [|reflexivity].
  exfalso. apply find_some in Hfind as [Hin Hex].
  apply existsb_exists in Hex as (kv' & Hin' & Heq).
  apply String.eqb_eq in Heq. apply (Hdis (fst kv)).
  - apply in_map, Hin.
  - rewrite Heq. apply in_map, Hin'.
Qed.

Lemma merge_kwargs_collision (kwargs extra_kwargs : Kwargs) (k : string) :
  In k (map fst kwargs) -> In k (map fst extra_kwargs) ->
  exists e, merge_kwargs kwargs extra_kwargs = inl e /\ exn_class e = TypeError.
Proof.
  intros Hk He. unfold merge_kwargs.
  destruct (find _ extra_kwargs) as [kv|] eqn:Hfind.
  - eexists. split; reflexivity.
  - exfalso. apply in_map_iff in He as (kv & <- & Hin).
    apply in_map_iff in Hk as (kv' & Heq & Hin').
    pose proof (find_none _ _ Hfind kv Hin) as Hnone. cbn beta in Hnone.
    assert (Hex : existsb (fun kv'0 => String.eqb (fst kv) (fst kv'0)) kwargs = true).
    { apply existsb_exists. exists kv'. split; [exact Hin'|].
      rewrite Heq. apply String.eqb_refl. }
    rewrite Hex in Hnone. discriminate.
Qed.

(** X14. For a message of a human account in which the parser finds no
    command, [process_commands] returns after the parse and executes
    nothing; an error of the parser itself is not caught and nothing is
    executed either. *)
Theorem process_commands_without_command (rt : Runtime) (message : Message.t)
    (m : Machine) :
  Author.bot (Message.author message) = false ->
  (forall args kw ekw,
      parse_message rt (client m) message = inr (None, args, kw, ekw) ->
      process_commands rt message m =
        (Done tt, {| client := client m;
                     history := history m ++ [AParse message] |})) /\
  (forall e,
      parse_message rt (client m) message = inl e ->
      process_commands rt message m =
        (Raised e, {| client := client m;
                      history := history m ++ [AParse message] |})).
Proof.
  intros Hbot. unfold process_commands. rewrite Hbot.
  split; [intros args kw ekw Hp | intros e Hp];
    unfold bind, gets, emit, id; cbn [client history]; rewrite Hp; reflexivity.
Qed.

Lemma process_commands_without_command_witness :
  process_commands rt_ok human_message (boot client0) =
    (Done tt, {| client := client (boot client0);
                 history := history (boot client0) ++ [AParse human_message] |}).
Proof.
  apply (proj1 (process_commands_without_command rt_ok human_message (boot client0)
                  eq_refl) [] [] []).
  reflexivity.
Defined.

(** X15. For a message of a human account in which the parser finds a
    command: when no keyword occurs in both keyword dictionaries, the body
    is executed exactly once, with the positional arguments and the two
    dictionaries merged, and [process_commands] ends as the body does (an
    error of the body is not caught); when a keyword occurs in both, the
    call raises [TypeError] and the body is not executed. *)
Theorem process_commands_runs_command (rt : Runtime) (message : Message.t)
    (m : Machine) (cmd : Command.t) (args : list Value) (kw ekw : Kwargs) :
  Author.bot (Message.author message) = false ->
  parse_message rt (client m) message = inr (Some cmd, args, kw, ekw) ->
  ((forall k, In k (map fst ekw) -> ~ In k (map fst kw)) ->
   exists m',
     process_commands rt message m =
       (match answer (execute rt cmd message args (kw ++ ekw)
                        (history m ++ [AParse message])) with
        | inl e => Raised e
        | inr _ => Done tt
        end, m') /\
     history m' =
       history m ++ [AParse message; AExecute cmd message args (kw ++ ekw)]) /\
  (forall k,
      In k (map fst kw) -> In k (map fst ekw) ->
      exists e,
        process_commands rt message m =
          (Raised e, {| client := client m;
                        history := history m ++ [AParse message] |}) /\
        exn_class e = TypeError).
Proof.
  intros Hbot Hp. unfold process_commands. rewrite Hbot. split.
  - intros Hdis. unfold bind, gets, emit, id. cbn [client history].
    rewrite Hp. cbn [lift ret]. rewrite (merge_kwargs_disjoint kw ekw Hdis).
    cbn [lift ret]. unfold await, bind, await_reply. cbn [client history].
    destruct (answer _) as [e|[]]; cbn [lift raise ret];
      (eexists; split; [reflexivity|]); cbn [history];
      rewrite <- app_assoc; reflexivity.
  - intros k Hk He.
    destruct (merge_kwargs_collision kw ekw k Hk He) as (e & Hm & Hcls).
    exists e. split; [|exact Hcls].
    unfold bind, gets, emit, id. cbn [client history].
    rewrite Hp. cbn [lift ret]. rewrite Hm. reflexivity.
Qed.

Lemma process_commands_runs_command_witness :
  exists m',
    process_commands rt_body_raises human_message (boot client0) =
      (match answer (execute rt_body_raises cmd_echo human_message [VData 0]
                       ([("times", VData 2)] ++ [("loud", VData 1)])
                       (history (boot client0) ++ [AParse human_message])) with
       | inl e => Raised e
       | inr _ => Done tt
       end, m') /\
    history m' =
      history (boot client0) ++
      [AParse human_message;
       AExecute cmd_echo human_message [VData 0]
         ([("times", VData 2)] ++ [("loud", VData 1)])].
Proof.
  apply (proj1 (process_commands_runs_command rt_body_raises human_message
                  (boot client0) cmd_echo [VData 0]
                  [("times", VData 2)] [("loud", VData 1)] eq_refl eq_refl)).
  intros k [<- | []] [Heq | []]. discriminate.
Defined.

(** ** [login], [connect], [close], [alive_loop] *)

Lemma bind_done_inv {A B} (x : M A) (k : A -> M B) (m m' : Machine) (b : B) :
  bind x k m = (Done b, m') ->
  exists a m1, x m = (Done a, m1) /\ k a m1 = (Done b, m').
Proof.
  unfold bind. destruct (x m) as [[a|e|] m1]; try discriminate. eauto.
Qed.

Lemma connect_S (rt : Runtime) (fuel : nat) (m : Machine) :
  connect rt (S fuel) m =
    (let* c := gets closed in
     if c then ret tt
     else
       let* tok := get_token in
       emit (ANewSocket tok) ;;
       open_session rt tok ;;
       receive_loop rt fuel ;;
       connect rt fuel) m.
Proof. reflexivity. Qed.

Lemma receive_loop_done_closed (rt : Runtime) (fuel : nat) (m m' : Machine) :
  receive_loop rt fuel m = (Done tt, m') -> closed (client m') = true.
Proof.
  revert m. induction fuel as [|fuel IH]; intros m; [discriminate|].
  cbn [receive_loop]. intros Hrun.
  apply bind_done_inv in Hrun as (c & m1 & Hc & Hrun).
  unfold gets in Hc. injection Hc as <- <-.
  destruct (closed (client m)) eqn:Hcl.
  - injection Hrun as <-. exact Hcl.
  - apply bind_done_inv in Hrun as (w & m2 & _ & Hrun).
    apply bind_done_inv in Hrun as (u & m3 & _ & Hrun).
    exact (IH _ Hrun).
Qed.

(** X16. [connect] returns only on a closed client: when a call of
    [connect] returns normally, the closed flag is set. *)
Theorem connect_returns_closed (rt : Runtime) (fuel : nat) (m m' : Machine) :
  connect rt fuel m = (Done tt, m') -> closed (client m') = true.
Proof.
  revert m. induction fuel as [|fuel IH]; intros m; [discriminate|].
  rewrite connect_S. intros Hrun.
  apply bind_done_inv in Hrun as (c & m1 & Hc & Hrun).
  unfold gets in Hc. injection Hc as <- <-.
  destruct (closed (client m)) eqn:Hcl.
  - injection Hrun as <-. exact Hcl.
  - apply bind_done_inv in Hrun as (tok & m2 & _ & Hrun).
    apply bind_done_inv in Hrun as (u1 & m3 & _ & Hrun).
    apply bind_done_inv in Hrun as (u2 & m4 & _ & Hrun).
    apply bind_done_inv in Hrun as (u3 & m5 & _ & Hrun).
    exact (IH _ Hrun).
Qed.

Lemma connect_returns_closed_witness :
  closed (client (snd (connect rt_ok 3 (logged_in client0)))) = true.
Proof.
  apply (connect_returns_closed rt_ok 3 (logged_in client0)
           (snd (connect rt_ok 3 (logged_in client0)))).
  reflexivity.
Defined.

Section TracesOf.

Variable P : list Action -> Prop.
Hypothesis P_nil : P [].
Hypothesis P_app : forall a b, P a -> P b -> P (a ++ b).

Lemma Traces_same {A} (x : M A) :
  (forall m, history (snd (x m)) = history m) -> Traces P x.
Proof. intros H m. exists []. rewrite app_nil_r. auto. Qed.

Lemma Traces_ret {A} (a : A) : Traces P (ret a).
Proof. apply Traces_same. reflexivity. Qed.

Lemma Traces_raise {A} (e : Exn) : Traces P (@raise A e).
Proof. apply Traces_same. reflexivity. Qed.

Lemma Traces_diverge {A} : Traces P (@diverge A).
Proof. apply Traces_same. reflexivity. Qed.

Lemma Traces_gets {A} (f : Client -> A) : Traces P (gets f).
Proof. apply Traces_same. reflexivity. Qed.

Lemma Traces_modify f : Traces P (modify f).
Proof. apply Traces_same. reflexivity. Qed.

Lemma Traces_lift {A} (r : Exn + A) : Traces P (lift r).
Proof. destruct r; [apply Traces_raise | apply Traces_ret]. Qed.

Lemma Traces_emit a : P [a] -> Traces P (emit a).
Proof. intros Ha m. exists [a]. auto. Qed.

Lemma Traces_await_reply {A} act (reply : list Action -> Reply A) :
  P [act] -> Traces P (await_reply act reply).
Proof. intros Ha m. exists [act]. auto. Qed.

Lemma Traces_bind {A B} (x : M A) (k : A -> M B) :
  Traces P x -> (forall a, Traces P (k a)) -> Traces P (bind x k).
Proof.
  intros Hx Hk m. destruct (Hx m) as (n1 & H1 & P1). unfold bind.
  destruct (x m) as [[a|e|] m1]; cbn [snd] in *; eauto.
  destruct (Hk a m1) as (n2 & H2 & P2). exists (n1 ++ n2).
  rewrite H2, H1, app_assoc. auto.
Qed.

Lemma Traces_await {A} act (reply : list Action -> Reply (Exn + A)) :
  P [act] -> Traces P (await act reply).
Proof.
  intros Ha. apply Traces_bind; [apply Traces_await_reply, Ha|].
  intros r. apply Traces_lift.
Qed.

Lemma Traces_finally {A} (body : M A) (cleanup : M unit) :
  Traces P body -> Traces P cleanup -> Traces P (finally body cleanup).
Proof.
  intros Hb Hc m. destruct (Hb m) as (n1 & H1 & P1). unfold finally.
  destruct (body m) as [[a|e|] m1]; cbn [snd] in *; eauto;
    destruct (Hc m1) as (n2 & H2 & P2);
    destruct (cleanup m1) as [[[]|e'|] m2]; cbn [snd] in *;
    exists (n1 ++ n2); rewrite H2, H1, app_assoc; auto.
Qed.

Lemma Traces_with_lock {A} (body : M A) :
  P [AAcquire] -> P [ARelease] -> Traces P body -> Traces P (with_lock body).
Proof.
  intros Ha Hr Hb. unfold with_lock.
  apply Traces_bind; [apply Traces_emit, Ha|]. intros _.
  apply Traces_finally; [exact Hb | apply Traces_emit, Hr].
Qed.

End TracesOf.

Lemma no_new_socket_nil : no_new_socket [].
Proof. reflexivity. Qed.

Lemma no_new_socket_app a b :
  no_new_socket a -> no_new_socket b -> no_new_socket (a ++ b).
Proof. unfold no_new_socket. intros Ha Hb. rewrite filter_app, Ha, Hb. reflexivity. Qed.

Ltac no_socket :=
  first [exact no_new_socket_nil | exact no_new_socket_app | reflexivity].

Lemma Traces_open_session (rt : Runtime) (tok : string) :
  Traces no_new_socket (open_session rt tok).
Proof.
  unfold open_session.
  apply Traces_with_lock; try no_socket.
  apply Traces_bind; try no_socket.
  - apply Traces_await; no_socket.
  - intros g_url. apply Traces_bind; try no_socket.
    + apply Traces_gets; no_socket.
    + intros i. destruct (negb (isinstance_Intents i)).
      * apply Traces_raise; no_socket.
      * apply Traces_bind; try no_socket.
        -- apply Traces_await_reply; no_socket.
        -- intros st. apply Traces_bind; try no_socket.
           ++ apply Traces_lift; no_socket.
           ++ intros w. apply Traces_modify; no_socket.
Qed.

Lemma Traces_receive_loop (rt : Runtime) (fuel : nat) :
  Traces no_new_socket (receive_loop rt fuel).
Proof.
  induction fuel as [|fuel IH]; [apply Traces_diverge; no_socket|].
  cbn [receive_loop].
  apply Traces_bind; try no_socket.
  - apply Traces_gets; no_socket.
  - intros [|]; [apply Traces_ret; no_socket|].
    apply Traces_bind; try no_socket.
    + unfold get_ws. apply Traces_bind; try no_socket.
      * apply Traces_gets; no_socket.
      * intros [w|]; [apply Traces_ret | apply Traces_raise]; no_socket.
    + intros w. apply Traces_bind; try no_socket.
      * apply Traces_await; no_socket.
      * intros _. exact IH.
Qed.

Lemma connect_on_closed (rt : Runtime) (fuel : nat) (m : Machine) :
  closed (client m) = true -> snd (connect rt fuel m) = m.
Proof.
  intros Hcl. destruct fuel as [|fuel]; [reflexivity|].
  rewrite connect_S. unfold bind, gets. rewrite Hcl. reflexivity.
Qed.

Lemma one_socket_then_none (tok : string) (n : list Action) :
  no_new_socket n ->
  List.length (filter is_new_socket (ANewSocket tok :: n)) <= 1.
Proof.
  unfold no_new_socket. intros Hn.
  rewrite filter_cons_True by exact I. rewrite Hn. cbn. lia.
Qed.

(** X17. A call of [connect] builds at most one socket, whatever the
    collaborators answer and however long it runs: the inner loop is left
    only on a closed client, on which the outer loop stops, so no second
    attempt is ever made within one call. *)
Theorem connect_builds_at_most_one_socket (rt : Runtime) (fuel : nat)
    (m : Machine) :
  exists new,
    history (snd (connect rt fuel m)) = history m ++ new /\
    List.length (filter is_new_socket new) <= 1.
Proof.
  assert (Hstop : exists new, history m = history m ++ new /\
                              List.length (filter is_new_socket new) <= 1).
  { exists []. rewrite app_nil_r. split; [reflexivity | cbn; lia]. }
  destruct fuel as [|fuel]; [exact Hstop|].
  rewrite connect_S. unfold bind at 1. unfold gets at 1.
  destruct (closed (client m)) eqn:Hcl; [exact Hstop|].
  unfold bind at 1. unfold get_token, bind at 1, gets at 1.
  destruct (token (client m)) as [tok|]; [|exact Hstop].
  unfold ret at 1. unfold bind at 1. unfold emit at 1.
  set (m0 := {| client := client m; history := history m ++ [ANewSocket tok] |}).
  unfold bind at 1.
  destruct (Traces_open_session rt tok m0) as (n1 & H1 & P1).
  assert (Hone : forall m1 n,
             history m1 = history m0 ++ n -> no_new_socket n ->
             exists new, history m1 = history m ++ new /\
                         List.length (filter is_new_socket new) <= 1).
  { intros m1 n Hh Hn. exists (ANewSocket tok :: n). rewrite Hh. unfold m0.
    cbn [history]. rewrite <- app_assoc.
    split; [reflexivity | apply one_socket_then_none, Hn]. }
  destruct (open_session rt tok m0) as [[[]|e|] m1]; cbn [snd] in *;
    try exact (Hone m1 n1 H1 P1).
  unfold bind at 1.
  destruct (Traces_receive_loop rt fuel m1) as (n2 & H2 & P2).
  assert (H12 : history (snd (receive_loop rt fuel m1)) = history m0 ++ n1 ++ n2)
    by (rewrite H2, H1, app_assoc; reflexivity).
  pose proof (no_new_socket_app n1 n2 P1 P2) as P12.
  destruct (receive_loop rt fuel m1) as [[[]|e|] m2] eqn:Hloop; cbn [snd] in *;
    try exact (Hone m2 _ H12 P12).
  rewrite (connect_on_closed rt fuel m2 (receive_loop_done_closed _ _ _ _ Hloop)).
  exact (Hone m2 _ H12 P12).
Qed.


Lemma closed_after_reply (b : bool) (c : Client) :
  closed c = true -> closed (if b then set_closed true c else c) = true.
Proof. destruct b; auto. Qed.

Lemma close_succeeds (rt : Runtime) (m : Machine) (s : Session) :
  ws (client m) = Some s ->
  answer (ws_close rt s (history m)) = inr tt ->
  answer (http_close rt (history m ++ [AWsClose s])) = inr tt ->
  exists c',
    close rt m =
      (Done tt, {| client := c'; history := history m ++ [AWsClose s; AHttpClose] |}) /\
    closed c' = true.
Proof.
  intros Hws H1 H2.
  unfold close, bind, modify, get_ws, gets, await, await_reply, lift.
  cbn. rewrite Hws. cbn. rewrite H1. cbn. rewrite H2. cbn.
  eexists. split; [rewrite <- app_assoc; reflexivity|].
  repeat apply closed_after_reply. reflexivity.
Qed.

Lemma close_marks_closed (rt : Runtime) (m : Machine) :
  closed (client (snd (close rt m))) = true.
Proof.
  unfold close, bind, modify, get_ws, gets, await, await_reply, lift.
  cbn.
  destruct (ws (client m)) as [s|]; [|reflexivity].
  cbn.
  destruct (answer (ws_close rt s (history m))) as [e|[]]; cbn.
  - apply closed_after_reply. reflexivity.
  - destruct (answer (http_close rt (history m ++ [AWsClose s]))) as [e|[]]; cbn;
      repeat apply closed_after_reply; reflexivity.
Qed.

(** X18. The cleanup of [alive_loop] after a session was assigned: when
    [login] succeeded and [connect] ended, normally or with an error,
    with a session assigned, and closing the socket and the REST layer
    both succeed, [alive_loop] closes the socket, then the REST layer, and
    ends exactly as [connect] did (its error is raised again), with the
    client marked closed. *)
Theorem alive_loop_closes_session (rt : Runtime) (fuel : nat) (tok : string)
    (m m1 m2 : Machine) (o : Outcome unit) (s : Session) :
  login rt tok m = (Done tt, m1) ->
  connect rt fuel m1 = (o, m2) ->
  o <> OutOfFuel ->
  ws (client m2) = Some s ->
  answer (ws_close rt s (history m2)) = inr tt ->
  answer (http_close rt (history m2 ++ [AWsClose s])) = inr tt ->
  exists m3,
    alive_loop rt fuel tok m = (o, m3) /\
    history m3 = history m2 ++ [AWsClose s; AHttpClose] /\
    closed (client m3) = true.
Proof.
  intros Hlogin Hconn Ho Hws H1 H2.
  destruct (close_succeeds rt m2 s Hws H1 H2) as (c' & Hclose & Hcl).
  unfold alive_loop, bind. rewrite Hlogin. unfold finally. rewrite Hconn, Hclose.
  destruct o as [[]|e|]; [| |contradiction]; eexists; repeat split; exact Hcl.
Qed.

Lemma alive_loop_closes_session_witness :
  exists m3,
    alive_loop rt_session_lost 3 "token" (boot client0) = (Raised session_lost, m3) /\
    history m3 =
      history (snd (connect rt_session_lost 3
                      (snd (login rt_session_lost "token" (boot client0)))))
      ++ [AWsClose gateway_session; AHttpClose] /\
    closed (client m3) = true.
Proof.
  apply (alive_loop_closes_session rt_session_lost 3 "token" (boot client0)
           (snd (login rt_session_lost "token" (boot client0)))
           (snd (connect rt_session_lost 3
                   (snd (login rt_session_lost "token" (boot client0)))))
           (Raised session_lost) gateway_session).
  - reflexivity.
  - reflexivity.
  - discriminate.
  - reflexivity.
  - reflexivity.
  - reflexivity.
Defined.

(** X19. [close] sets the closed flag before anything else, so the client
    is marked closed whatever happens next; when closing the socket
    raises, that error ends [close] and the REST layer is not closed. *)
Theorem close_marks_closed_first (rt : Runtime) (m : Machine) :
  closed (client (snd (close rt m))) = true /\
  (forall s e,
      ws (client m) = Some s ->
      answer (ws_close rt s (history m)) = inl e ->
      exists m',
        close rt m = (Raised e, m') /\
        history m' = history m ++ [AWsClose s]).
Proof.
  split; [apply close_marks_closed|].
  intros s e Hws He.
  unfold close, bind, modify, get_ws, gets, await, await_reply, lift.
  cbn. rewrite Hws. cbn. rewrite He. eexists. split; reflexivity.
Qed.

Lemma close_marks_closed_first_witness :
  exists m',
    close rt_close_fails (snd (connect rt_close_fails 3 (logged_in client0)))
      = (Raised close_error, m') /\
    history m' =
      history (snd (connect rt_close_fails 3 (logged_in client0)))
      ++ [AWsClose gateway_session].
Proof.
  apply (proj2 (close_marks_closed_first rt_close_fails
                  (snd (connect rt_close_fails 3 (logged_in client0))))
           gateway_session close_error).
  - reflexivity.
  - reflexivity.
Defined.

(** X20. [login] stores the token before it asks the REST layer, so the
    token is set even when the request fails; the account information is
    stored only on success, the error of the request is not caught, and
    in both cases the lock is taken around the request and released. *)
Theorem login_stores_token_first (rt : Runtime) (tok : string) (m : Machine) :
  token (client (snd (login rt tok m))) = Some tok /\
  history (snd (login rt tok m)) = history m ++ [AAcquire; ALogin tok; ARelease] /\
  match answer (http_login rt tok (history m ++ [AAcquire])) with
  | inl e => fst (login rt tok m) = Raised e /\
             info (client (snd (login rt tok m))) = info (client m)
  | inr i => fst (login rt tok m) = Done tt /\
             info (client (snd (login rt tok m))) = Some i
  end.
Proof.
  unfold login, with_lock, await, finally, bind, modify, emit, await_reply, lift.
  cbn [client history].
  destruct (http_login rt tok (history m ++ [AAcquire])) as [cc [e|i]];
    cbn [answer close_called raise ret client history fst snd];
    rewrite <- ?app_assoc; destruct cc; repeat split.
Qed.

(** X21. When [login] succeeded and [alive_loop] ends at all, the client is
    marked closed, whether [connect] returned or raised and whether the
    cleanup itself succeeded. *)
Theorem alive_loop_ends_closed (rt : Runtime) (fuel : nat) (tok : string)
    (m m1 : Machine) :
  login rt tok m = (Done tt, m1) ->
  fst (alive_loop rt fuel tok m) <> OutOfFuel ->
  closed (client (snd (alive_loop rt fuel tok m))) = true.
Proof.
  intros Hlogin. unfold alive_loop, bind. rewrite Hlogin. unfold finally.
  pose proof (fun m2 => close_marks_closed rt m2) as Hcl.
  destruct (connect rt fuel m1) as [[[]|e|] m2]; cbn [fst snd];
    try (intros H; contradiction);
    intros _; specialize (Hcl m2);
    destruct (close rt m2) as [[[]|e'|] m3]; exact Hcl.
Qed.

Lemma alive_loop_ends_closed_witness :
  closed (client (snd (alive_loop rt_timeout 3 "token" (boot client0)))) = true.
Proof.
  apply (alive_loop_ends_closed rt_timeout 3 "token" (boot client0)
           (snd (login rt_timeout "token" (boot client0)))).
  - reflexivity.
  - discriminate.
Defined.

(** ** [DiscordObject.__hash__] *)

(** X22. The hash of a [DiscordObject] is its snowflake without the low 22
    bits: for an id [hi * 2^22 + lo] with [0 <= lo < 2^22] the hash is
    [hi].  So an object created later never hashes lower, and objects
    whose ids differ only in the low 22 bits collide. *)
Theorem hash_drops_low_bits (o : DiscordObject.t) (hi lo : Z) :
  (0 <= lo < 2 ^ 22)%Z ->
  Snowflake.id (DiscordObject.id o) = (hi * 2 ^ 22 + lo)%Z ->
  DiscordObject.__hash__ o = hi /\
  (forall o',
      (Snowflake.id (DiscordObject.id o) <= Snowflake.id (DiscordObject.id o'))%Z ->
      (DiscordObject.__hash__ o <= DiscordObject.__hash__ o')%Z) /\
  (forall o' lo',
      (0 <= lo' < 2 ^ 22)%Z ->
      Snowflake.id (DiscordObject.id o') = (hi * 2 ^ 22 + lo')%Z ->
      DiscordObject.__hash__ o' = DiscordObject.__hash__ o).
Proof.
  intros Hlo Hid.
  assert (Hdiv : forall v h l, (0 <= l < 2 ^ 22)%Z -> v = (h * 2 ^ 22 + l)%Z ->
                               Z.shiftr v 22 = h).
  { intros v h l Hl ->. rewrite Z.shiftr_div_pow2 by lia.
    rewrite Z.add_comm, Z.div_add by lia.
    rewrite Z.div_small by exact Hl. reflexivity. }
  unfold DiscordObject.__hash__.
  split; [exact (Hdiv _ _ _ Hlo Hid)|]. split.
  - intros o' Hle. rewrite !Z.shiftr_div_pow2 by lia.
    apply Z.div_le_mono; [lia | exact Hle].
  - intros o' lo' Hlo' Hid'.
    rewrite (Hdiv _ _ _ Hlo' Hid'), (Hdiv _ _ _ Hlo Hid). reflexivity.
Qed.

Lemma hash_drops_low_bits_witness :
  DiscordObject.__hash__ message_object = 41944705796%Z.
Proof.
  apply (hash_drops_low_bits message_object 41944705796 131079).
  - lia.
  - reflexivity.
Defined.
